(** * rsuanalyzer: the ligand frame solver [calc_lig_end] and its callers

    A shallow embedding of [src/rsuanalyzer/calc_lig_end.py] and of the
    bracket stripping of [src/analysis/chain_visualization/src/synt1_theta0.py].

    Numbers.  Python floats are idealised as real numbers ([R] of the
    Standard Library): the trigonometry of the source is exact here, and a
    float comparison [a <= b] is the order of [R].  Python ints stay in [Z]
    and are injected with [IZR] where the source multiplies an int by a float.

    Rotations.  A [scipy.spatial.transform.Rotation] is represented by the
    rotation matrix it denotes ([as_matrix()]): [r1 * r2] is the matrix
    product and [r.apply(v)] the product of the matrix by the column [v]. *)

From Stdlib Require Import Reals Lra Lia ZArith String Ascii List Bool
  DecimalString.
Import ListNotations.

Local Open Scope R_scope.
Local Open Scope string_scope.

(** ** Exceptions and the error monad *)

(** The two f-strings of the source, ["Invalid lig_type: {lig_type}"] and
    ["Invalid theta: {theta}"], kept with the value they interpolate; the
    third message is the ring walker's, for a malformed conformation. *)
Inductive message : Type :=
| InvalidLigType (lig_type : string)
| InvalidTheta (theta : R)
| InvalidConfId (conf_id : string).

Inductive exn : Type :=
| ValueError (msg : message).

Inductive result (A : Type) : Type :=
| Ok (a : A)
| Raise (e : exn).

Arguments Ok {A} a.
Arguments Raise {A} e.

Definition bind {A B : Type} (m : result A) (f : A -> result B) : result B :=
  match m with
  | Ok a => f a
  | Raise e => Raise e
  end.

Notation "x <- m ;; k" := (bind m (fun x => k))
  (at level 61, m at next level, right associativity).
Notation "' p <- m ;; k" := (bind m (fun x => match x with p => k end))
  (at level 61, p pattern, m at next level, right associativity).

Definition raises {A : Type} (m : result A) : Prop :=
  exists e, m = Raise e.

Definition returns {A : Type} (m : result A) : Prop :=
  exists a, m = Ok a.

(** ** Vectors and rotations *)

Module Geometry.

Record Vec3 : Type := mkVec3 { vx : R; vy : R; vz : R }.

Definition vadd (u v : Vec3) : Vec3 :=
  mkVec3 (vx u + vx v) (vy u + vy v) (vz u + vz v).

Definition dot (u v : Vec3) : R :=
  vx u * vx v + vy u * vy v + vz u * vz v.

(** [np.linalg.norm] *)
Definition norm (v : Vec3) : R := sqrt (dot v v).

(** A rotation, by the rows of its matrix. *)
Record Rotation : Type := mkRot { row1 : Vec3; row2 : Vec3; row3 : Vec3 }.

Definition col1 (r : Rotation) : Vec3 := mkVec3 (vx (row1 r)) (vx (row2 r)) (vx (row3 r)).
Definition col2 (r : Rotation) : Vec3 := mkVec3 (vy (row1 r)) (vy (row2 r)) (vy (row3 r)).
Definition col3 (r : Rotation) : Vec3 := mkVec3 (vz (row1 r)) (vz (row2 r)) (vz (row3 r)).

(** [r.apply(v)] *)
Definition apply (r : Rotation) (v : Vec3) : Vec3 :=
  mkVec3 (dot (row1 r) v) (dot (row2 r) v) (dot (row3 r) v).

Definition row_times (u : Vec3) (r : Rotation) : Vec3 :=
  mkVec3 (dot u (col1 r)) (dot u (col2 r)) (dot u (col3 r)).

(** [p * q]: first [q], then [p]. *)
Definition compose (p q : Rotation) : Rotation :=
  mkRot (row_times (row1 p) q) (row_times (row2 p) q) (row_times (row3 p) q).

Definition identity : Rotation :=
  mkRot (mkVec3 1 0 0) (mkVec3 0 1 0) (mkVec3 0 0 1).

Inductive Axis : Type := AxisX | AxisY | AxisZ.

(** [np.deg2rad] *)
Definition deg2rad (d : R) : R := d * PI / 180.

(** [R.from_euler(axis, angle, degrees=True)] for a single axis. *)
Definition from_euler (axis : Axis) (angle : R) : Rotation :=
  let c := cos (deg2rad angle) in
  let s := sin (deg2rad angle) in
  match axis with
  | AxisX => mkRot (mkVec3 1 0 0) (mkVec3 0 c (- s)) (mkVec3 0 s c)
  | AxisY => mkRot (mkVec3 c 0 s) (mkVec3 0 1 0) (mkVec3 (- s) 0 c)
  | AxisZ => mkRot (mkVec3 c (- s) 0) (mkVec3 s c 0) (mkVec3 0 0 1)
  end.

End Geometry.

Import Geometry.

Infix "+v" := vadd (at level 50, left associativity).
Infix "*r" := compose (at level 40, left associativity).

(** ** [calc_lig_end.py] *)

(** [x in (a, b, ...)] on strings. *)
Definition in_tuple (x : string) (t : list string) : bool :=
  existsb (String.eqb x) t.

(** The float comparison [a <= b]. *)
Definition Rle_bool (a b : R) : bool :=
  if Rle_dec a b then true else false.

Definition lig_type_to_signs (lig_type : string) : result (Z * Z) :=
  if lig_type =? "RR" then Ok (1, 1)%Z
  else if lig_type =? "RL" then Ok (1, -1)%Z
  else if lig_type =? "LR" then Ok (-1, 1)%Z
  else if lig_type =? "LL" then Ok (-1, -1)%Z
  else Raise (ValueError (InvalidLigType lig_type)).

Record InnerVecsAndRots : Type := mkInner {
  x_ab_in_system_a : Vec3;
  x_bc_in_system_a : Vec3;
  rot_ab1 : Rotation;
  rot_b1b2 : Rotation;
  rot_b2c1 : Rotation;
  rot_c1c2 : Rotation
}.

Definition calc_inner_vecs_and_rots (lig_type : string) (theta : R)
  : result InnerVecsAndRots :=
  '(j, k) <- lig_type_to_signs lig_type ;;
  let x_ab_in_system_a := mkVec3 1 0 0 in
  let rot_ab1 := from_euler AxisX (IZR j * theta) in
  let rot_b1b2 := from_euler AxisZ (IZR (j * 60)) in
  let rot_b2c1 := from_euler AxisX (IZR k * theta) in
  let x_bc_in_system_a := apply (rot_ab1 *r rot_b1b2) (mkVec3 1 0 0) in
  let rot_c1c2 :=
    if in_tuple lig_type ["RR"; "LL"]
    then from_euler AxisX 180
    else from_euler AxisX 0 in
  Ok (mkInner x_ab_in_system_a x_bc_in_system_a
        rot_ab1 rot_b1b2 rot_b2c1 rot_c1c2).

Definition lig_types : list string := ["RR"; "RL"; "LR"; "LL"].

Definition calc_lig_end (lig_type : string) (theta : R)
  : result (Vec3 * Rotation) :=
  if negb (in_tuple lig_type lig_types)
  then Raise (ValueError (InvalidLigType lig_type))
  else if negb (Rle_bool 0 theta && Rle_bool theta 90)
  then Raise (ValueError (InvalidTheta theta))
  else
    vecs_rots <- calc_inner_vecs_and_rots lig_type theta ;;
    let x_ac_in_system_a :=
      x_ab_in_system_a vecs_rots +v x_bc_in_system_a vecs_rots in
    let rot_ac :=
      rot_ab1 vecs_rots *r rot_b1b2 vecs_rots
        *r rot_b2c1 vecs_rots *r rot_c1c2 vecs_rots in
    Ok (x_ac_in_system_a, rot_ac).

(** ** [synt1_theta0.py] *)

(** [s.replace(c, "")] for a one-character [c]. *)
Fixpoint remove_char (c : ascii) (s : string) : string :=
  match s with
  | EmptyString => EmptyString
  | String a s' =>
      if Ascii.eqb a c then remove_char c s' else String a (remove_char c s')
  end.



(** ** The ring walker *)

Section RingWalker.

(** Modelled from the spec: [calc_metal_positions] (module
    [chainvisualizer.chain], imported by [synt1_theta0.py]) is missing from
    the sources.  The definitions of this section follow section 4.2 of the
    specification, restricted to the metal positions.  The axis of the
    bridge rotation is not given there: the rotation is a parameter. *)
Variable bridge : R -> Rotation.

(** Modelled from the spec: the conformation string read as 2-character
    tokens; a string of odd length is rejected. *)
Fixpoint tokens_from (conf s : string) : result (list string) :=
  match s with
  | EmptyString => Ok []
  | String a EmptyString => Raise (ValueError (InvalidConfId conf))
  | String a (String b rest) =>
      ts <- tokens_from conf rest ;;
      Ok (String a (String b EmptyString) :: ts)
  end.

Definition tokens (conf : string) : result (list string) :=
  tokens_from conf conf.

(** Modelled from the spec: steps a, b and c of the walk from the running
    frame [(pos, ori)]. *)
Fixpoint walk_from (pos : Vec3) (ori : Rotation) (toks : list string)
  (theta delta : R) : result (list Vec3) :=
  match toks with
  | [] => Ok []
  | lig_type :: rest =>
      '(x_ac, rot_ac) <- calc_lig_end lig_type theta ;;
      let metal := pos +v apply ori x_ac in
      let ori' := ori *r rot_ac *r bridge delta in
      ps <- walk_from metal ori' rest theta delta ;;
      Ok (metal :: ps)
  end.

(** Modelled from the spec: the running frame starts at the origin with the
    identity orientation. *)
Definition walk (toks : list string) (theta delta : R) : result (list Vec3) :=
  walk_from (mkVec3 0 0 0) identity toks theta delta.

(** Modelled from the spec: the entry point on conformation strings. *)
Definition calc_metal_positions (conf : string) (theta delta : R)
  : result (list Vec3) :=
  toks <- tokens conf ;;
  walk toks theta delta.

End RingWalker.

(** ** Vocabulary of the statements *)

(** The two values a rotation direction takes. *)
Definition is_sign (j : Z) : Prop := j = 1%Z \/ j = (-1)%Z.

(** [calc_lig_end] returns, and the norm of the displacement is [n] up to
    [tol]. *)
Definition displacement_norm_is (lig_type : string) (theta n tol : R) : Prop :=
  exists x_ac rot_ac,
    calc_lig_end lig_type theta = Ok (x_ac, rot_ac) /\
    Rabs (norm x_ac - n) <= tol.

(** The net rotation of the four sub-rotations, in the order of the source
    and in the reversed order. *)
Definition net_rotation (v : InnerVecsAndRots) : Rotation :=
  rot_ab1 v *r rot_b1b2 v *r rot_b2c1 v *r rot_c1c2 v.

Definition net_rotation_reversed (v : InnerVecsAndRots) : Rotation :=
  rot_c1c2 v *r rot_b2c1 v *r rot_b1b2 v *r rot_ab1 v.

(** The conformation string spelled by a list of tokens. *)
Definition conf_id_of (toks : list string) : string :=
  fold_right String.append EmptyString toks.

(** ** Vocabulary of the geometric properties *)

Definition transpose (r : Rotation) : Rotation :=
  mkRot (col1 r) (col2 r) (col3 r).

Definition det (r : Rotation) : R :=
  vx (row1 r) * (vy (row2 r) * vz (row3 r) - vz (row2 r) * vy (row3 r))
  - vy (row1 r) * (vx (row2 r) * vz (row3 r) - vz (row2 r) * vx (row3 r))
  + vz (row1 r) * (vx (row2 r) * vy (row3 r) - vy (row2 r) * vx (row3 r)).

Definition trace (r : Rotation) : R :=
  vx (row1 r) + vy (row2 r) + vz (row3 r).

(** A proper rotation: orthogonal, of determinant 1. *)
Definition proper (r : Rotation) : Prop :=
  r *r transpose r = identity /\ transpose r *r r = identity /\ det r = 1.

(** The reflection in the plane y = 0, as a matrix. *)
Definition reflect_y : Rotation :=
  mkRot (mkVec3 1 0 0) (mkVec3 0 (-1) 0) (mkVec3 0 0 1).

(** The mirror image of a rotation in the plane y = 0. *)
Definition mirror (r : Rotation) : Rotation :=
  reflect_y *r r *r reflect_y.

(** ** [synt1_theta0.py], continued *)

(** [conf_id.replace("(", "").replace(")", "")] *)
Definition strip_brackets (conf_id : string) : string :=
  remove_char ")" (remove_char "(" conf_id).

Definition is_bracket (c : ascii) : bool :=
  Ascii.eqb c "(" || Ascii.eqb c ")".

Definition NAME : string := "syn-T-1".

Definition lig_colors : list string :=
  ["#1f77b4"; "#2ca02c"; "#ff7f0e"; "#9467bd"; "#17becf"].

Section Plot.

(** [transpose_to_xyz] ([chainvisualizer.utils]) is missing from the
    sources: it is a parameter, and so is the type of what it returns. *)
Variable XYZ : Type.
Variable transpose_to_xyz : list Vec3 -> XYZ.

(** The calls made on the axes [ax], in the order of the script. *)
Inductive draw : Type :=
| scatter (pos : Vec3) (c marker : string)
| text (pos : Vec3) (s : string) (color : string)
| plot (xyz : XYZ) (c : string).

(** [enumerate(l)], counting from [i]. *)
Fixpoint enumerate_from {A : Type} (i : nat) (l : list A) : list (nat * A) :=
  match l with
  | [] => []
  | a :: l' => (i, a) :: enumerate_from (S i) l'
  end.

(** [f"{n}"] for a non-negative int. *)
Definition format_int (n : nat) : string :=
  DecimalString.NilEmpty.string_of_uint (Nat.to_uint n).

(** The loop [for i, metal_pos in enumerate(metal_positions)]. *)
Definition scatter_metals (metal_positions : list Vec3) : list draw :=
  flat_map (fun '(i, metal_pos) =>
              [scatter metal_pos "orange" "o";
               text metal_pos (format_int (i + 1)) "orange"])
           (enumerate_from 0 metal_positions).

(** The loop [for lig, lig_colors in zip(frags_of_ligs, lig_colors)] and its
    inner loop [for frag in lig]; [zip] is [combine]. *)
Definition plot_ligands (frags_of_ligs : list (list (list Vec3))) : list draw :=
  flat_map (fun '(lig, color) =>
              map (fun frag => plot (transpose_to_xyz frag) color) lig)
           (combine frags_of_ligs lig_colors).

End Plot.

Arguments scatter {XYZ} pos c marker.
Arguments text {XYZ} pos s color.
Arguments plot {XYZ} xyz c.

(** ** [syns1_delta103.py] *)

(** [range(start, stop, step)] for a positive [step]. *)
Definition range (start stop step : Z) : list Z :=
  map (fun i => (start + Z.of_nat i * step)%Z)
      (seq 0 (Z.to_nat ((stop - start + step - 1) / step))).

Definition CONF_ID_OF_RING : string := "RRFFLLBBRRFFLLBB".
Definition THETAS : list Z := range 0 91 1.
Definition DELTA_ : Z := 103.

(** A list comprehension [[f(x) for x in l]] whose body may raise. *)
Fixpoint comprehension {A B : Type} (f : A -> result B) (l : list A)
  : result (list B) :=
  match l with
  | [] => Ok []
  | x :: l' =>
      y <- f x ;;
      ys <- comprehension f l' ;;
      Ok (y :: ys)
  end.

Section RsuTable.

(** [calc_rsu] ([rsuanalyzer.core.rsu]) is missing from the sources: it is
    a parameter, called with the string and the two ints of the script. *)
Variable calc_rsu : string -> Z -> Z -> result R.

(** The two columns of the data frame [df], ["theta"] and ["rsu"]. *)
Definition df : result (list Z * list R) :=
  rsu <- comprehension (fun theta => calc_rsu CONF_ID_OF_RING theta DELTA_)
           THETAS ;;
  Ok (THETAS, rsu).

End RsuTable.

(** ** Vocabulary of the statements on the scripts *)

(** A conformation written unit by unit, each unit a ligand token followed
    by a bridge token in brackets, as in [CONF_ID]; and the same without
    the brackets. *)
Definition bracketed (units : list (string * string)) : string :=
  fold_right (fun '(lig, con) s => lig ++ "(" ++ con ++ ")" ++ s) "" units.

Definition flattened (units : list (string * string)) : string :=
  fold_right (fun '(lig, con) s => lig ++ con ++ s) "" units.

Definition bracket_free (s : string) : Prop :=
  Forall (fun c => is_bracket c = false) (list_ascii_of_string s).

(** * Properties *)

(** ** Validation *)

Lemma Rle_bool_true (a b : R) : a <= b -> Rle_bool a b = true.
Proof. intros H. unfold Rle_bool. destruct (Rle_dec a b); [reflexivity | contradiction]. Qed.

Lemma Rle_bool_false (a b : R) : ~ a <= b -> Rle_bool a b = false.
Proof. intros H. unfold Rle_bool. destruct (Rle_dec a b); [contradiction | reflexivity]. Qed.

Lemma theta_check_true (theta : R) :
  0 <= theta <= 90 -> Rle_bool 0 theta && Rle_bool theta 90 = true.
Proof. intros [H0 H90]. now rewrite !Rle_bool_true. Qed.

Lemma theta_check_false (theta : R) :
  ~ 0 <= theta <= 90 -> Rle_bool 0 theta && Rle_bool theta 90 = false.
Proof.
  intros H. unfold Rle_bool.
  destruct (Rle_dec 0 theta), (Rle_dec theta 90); try reflexivity.
  exfalso. apply H. split; assumption.
Qed.

Lemma in_tuple_In (x : string) (t : list string) :
  in_tuple x t = true <-> In x t.
Proof.
  unfold in_tuple. rewrite existsb_exists. split.
  - intros [y [Hy Heq]]. apply String.eqb_eq in Heq. now subst.
  - intros H. exists x. split; [assumption | apply String.eqb_refl].
Qed.

Lemma in_tuple_not_In (x : string) (t : list string) :
  in_tuple x t = false <-> ~ In x t.
Proof.
  rewrite <- in_tuple_In. destruct (in_tuple x t); split; congruence.
Qed.

Lemma lig_types_cases (lig_type : string) :
  In lig_type lig_types ->
  lig_type = "RR" \/ lig_type = "RL" \/ lig_type = "LR" \/ lig_type = "LL".
Proof.
  unfold lig_types. simpl. intros [H | [H | [H | [H | []]]]]; subst; auto.
Qed.

Ltac lig_type_cases H :=
  apply lig_types_cases in H;
  destruct H as [H | [H | [H | H]]]; subst.

Lemma calc_lig_end_invalid_lig_type (lig_type : string) (theta : R) :
  ~ In lig_type lig_types ->
  calc_lig_end lig_type theta = Raise (ValueError (InvalidLigType lig_type)).
Proof.
  intros H. apply in_tuple_not_In in H. unfold calc_lig_end. now rewrite H.
Qed.

Lemma calc_lig_end_invalid_theta (lig_type : string) (theta : R) :
  In lig_type lig_types -> ~ 0 <= theta <= 90 ->
  calc_lig_end lig_type theta = Raise (ValueError (InvalidTheta theta)).
Proof.
  intros Hl Ht. apply in_tuple_In in Hl. unfold calc_lig_end.
  rewrite Hl, (theta_check_false _ Ht). reflexivity.
Qed.

Lemma calc_lig_end_valid (lig_type : string) (theta : R) :
  In lig_type lig_types -> 0 <= theta <= 90 ->
  calc_lig_end lig_type theta =
    (vecs_rots <- calc_inner_vecs_and_rots lig_type theta ;;
     Ok (x_ab_in_system_a vecs_rots +v x_bc_in_system_a vecs_rots,
         rot_ab1 vecs_rots *r rot_b1b2 vecs_rots
           *r rot_b2c1 vecs_rots *r rot_c1c2 vecs_rots)).
Proof.
  intros Hl Ht. apply in_tuple_In in Hl. unfold calc_lig_end.
  rewrite Hl, (theta_check_true _ Ht). reflexivity.
Qed.

(** ** Trigonometry in degrees *)

Lemma deg2rad_opp (d : R) : deg2rad (- d) = - deg2rad d.
Proof. unfold deg2rad. field. Qed.

Lemma deg2rad_0 : deg2rad 0 = 0.
Proof. unfold deg2rad. field. Qed.

Lemma deg2rad_45 : deg2rad 45 = PI / 4.
Proof. unfold deg2rad. field. Qed.

Lemma deg2rad_60 : deg2rad 60 = PI / 3.
Proof. unfold deg2rad. field. Qed.

Lemma deg2rad_90 : deg2rad 90 = PI / 2.
Proof. unfold deg2rad. field. Qed.

Lemma deg2rad_180 : deg2rad 180 = PI.
Proof. unfold deg2rad. field. Qed.

Lemma cos_deg_opp (d : R) : cos (deg2rad (- d)) = cos (deg2rad d).
Proof. rewrite deg2rad_opp. apply cos_neg. Qed.

Lemma sin_deg_opp (d : R) : sin (deg2rad (- d)) = - sin (deg2rad d).
Proof. rewrite deg2rad_opp. apply sin_neg. Qed.

Lemma cos_deg_0 : cos (deg2rad 0) = 1.
Proof. rewrite deg2rad_0. apply cos_0. Qed.

Lemma sin_deg_0 : sin (deg2rad 0) = 0.
Proof. rewrite deg2rad_0. apply sin_0. Qed.

Lemma cos_deg_60 : cos (deg2rad 60) = 1 / 2.
Proof. rewrite deg2rad_60. apply cos_PI3. Qed.

Lemma sin_deg_60 : sin (deg2rad 60) = sqrt 3 / 2.
Proof. rewrite deg2rad_60. apply sin_PI3. Qed.

Lemma cos_deg_90 : cos (deg2rad 90) = 0.
Proof. rewrite deg2rad_90. apply cos_PI2. Qed.

Lemma sin_deg_90 : sin (deg2rad 90) = 1.
Proof. rewrite deg2rad_90. apply sin_PI2. Qed.

Lemma cos_deg_180 : cos (deg2rad 180) = -1.
Proof. rewrite deg2rad_180. apply cos_PI. Qed.

Lemma sin_deg_180 : sin (deg2rad 180) = 0.
Proof. rewrite deg2rad_180. apply sin_PI. Qed.

Lemma cos2_sin2_deg (d : R) :
  cos (deg2rad d) * cos (deg2rad d) + sin (deg2rad d) * sin (deg2rad d) = 1.
Proof.
  pose proof (sin2_cos2 (deg2rad d)) as H. unfold Rsqr in H. lra.
Qed.

Lemma sqrt3_sqrt3 : sqrt 3 * sqrt 3 = 3.
Proof. apply sqrt_sqrt. lra. Qed.

Lemma sqrt3_pos : 0 < sqrt 3.
Proof. apply sqrt_lt_R0. lra. Qed.

Lemma sqrt3_lt_2 : sqrt 3 < 9 / 5.
Proof.
  pose proof sqrt3_sqrt3 as H. pose proof sqrt3_pos as Hp.
  destruct (Rlt_dec (sqrt 3) (9 / 5)) as [Hlt | Hge]; [assumption | nra].
Qed.

Lemma from_euler_x_0 : from_euler AxisX 0 = identity.
Proof.
  unfold from_euler, identity. rewrite cos_deg_0, sin_deg_0, Ropp_0. reflexivity.
Qed.

(** ** The inner vectors and rotations *)

Lemma lig_type_to_signs_valid (lig_type : string) :
  In lig_type lig_types ->
  exists j k, lig_type_to_signs lig_type = Ok (j, k) /\ is_sign j /\ is_sign k.
Proof.
  intros H. unfold is_sign. lig_type_cases H; cbn; eauto 8.
Qed.

Lemma calc_inner_vecs_and_rots_signs (lig_type : string) (theta : R) (j k : Z) :
  lig_type_to_signs lig_type = Ok (j, k) ->
  calc_inner_vecs_and_rots lig_type theta =
    Ok (mkInner (mkVec3 1 0 0)
          (apply (from_euler AxisX (IZR j * theta) *r from_euler AxisZ (IZR (j * 60)))
             (mkVec3 1 0 0))
          (from_euler AxisX (IZR j * theta))
          (from_euler AxisZ (IZR (j * 60)))
          (from_euler AxisX (IZR k * theta))
          (if in_tuple lig_type ["RR"; "LL"]
           then from_euler AxisX 180 else from_euler AxisX 0)).
Proof.
  intros H. unfold calc_inner_vecs_and_rots. rewrite H. reflexivity.
Qed.

Lemma calc_inner_vecs_and_rots_returns (lig_type : string) (theta : R) :
  In lig_type lig_types -> returns (calc_inner_vecs_and_rots lig_type theta).
Proof.
  intros H. destruct (lig_type_to_signs_valid _ H) as [j [k [Hs _]]].
  eexists. apply (calc_inner_vecs_and_rots_signs _ _ _ _ Hs).
Qed.

Lemma neg1_mul (x : R) : -1 * x = - x.
Proof. ring. Qed.

Lemma sign_angle (j : Z) (d : R) :
  is_sign j ->
  cos (deg2rad (IZR j * d)) = cos (deg2rad d) /\
  sin (deg2rad (IZR j * d)) = IZR j * sin (deg2rad d).
Proof.
  intros [-> | ->].
  - rewrite Rmult_1_l. split; [reflexivity | ring].
  - rewrite neg1_mul, cos_deg_opp, sin_deg_opp. split; [reflexivity | ring].
Qed.

Lemma sign_square (j : Z) : is_sign j -> IZR j * IZR j = 1.
Proof. intros [-> | ->]; ring. Qed.

Lemma x_bc_explicit (j : Z) (theta : R) :
  is_sign j ->
  apply (from_euler AxisX (IZR j * theta) *r from_euler AxisZ (IZR (j * 60)))
    (mkVec3 1 0 0) =
  mkVec3 (1 / 2)
    (IZR j * (sqrt 3 / 2) * cos (deg2rad theta))
    (sqrt 3 / 2 * sin (deg2rad theta)).
Proof.
  intros Hj. rewrite mult_IZR.
  destruct (sign_angle j theta Hj) as [Hc Hs].
  destruct (sign_angle j 60 Hj) as [Hc60 Hs60].
  pose proof (sign_square j Hj) as Hjj.
  unfold from_euler, compose, apply, row_times, dot, col1, col2, col3. cbn.
  rewrite Hc, Hs, Hc60, Hs60, cos_deg_60, sin_deg_60.
  f_equal.
  - field.
  - field.
  - replace (sqrt 3 / 2 * sin (deg2rad theta))
      with (IZR j * IZR j * (sqrt 3 / 2 * sin (deg2rad theta)))
      by (rewrite Hjj; ring).
    field.
Qed.

Lemma norm_x_ac (j : Z) (theta : R) :
  is_sign j ->
  norm (mkVec3 1 0 0 +v
        mkVec3 (1 / 2) (IZR j * (sqrt 3 / 2) * cos (deg2rad theta))
          (sqrt 3 / 2 * sin (deg2rad theta))) = sqrt 3.
Proof.
  intros Hj. unfold norm. f_equal.
  unfold dot, vadd. cbn.
  pose proof (sign_square j Hj) as Hjj.
  pose proof (cos2_sin2_deg theta) as Hcs.
  pose proof sqrt3_sqrt3 as H3.
  set (c := cos (deg2rad theta)) in *. set (s := sin (deg2rad theta)) in *.
  set (q := sqrt 3) in *. set (r := IZR j) in *.
  replace ((1 + 1 / 2) * (1 + 1 / 2) + (0 + r * (q / 2) * c) * (0 + r * (q / 2) * c) +
           (0 + q / 2 * s) * (0 + q / 2 * s))
    with (9 / 4 + (q * q) / 4 * ((r * r) * (c * c) + s * s)) by field.
  rewrite Hjj, H3, Rmult_1_l, Hcs. field.
Qed.

(** ** The result of [calc_lig_end] on valid inputs *)

Lemma calc_lig_end_signs (lig_type : string) (theta : R) (j k : Z) :
  In lig_type lig_types -> 0 <= theta <= 90 ->
  lig_type_to_signs lig_type = Ok (j, k) ->
  calc_lig_end lig_type theta =
    Ok (mkVec3 1 0 0 +v
        apply (from_euler AxisX (IZR j * theta) *r from_euler AxisZ (IZR (j * 60)))
          (mkVec3 1 0 0),
        from_euler AxisX (IZR j * theta) *r from_euler AxisZ (IZR (j * 60))
          *r from_euler AxisX (IZR k * theta)
          *r (if in_tuple lig_type ["RR"; "LL"]
              then from_euler AxisX 180 else from_euler AxisX 0)).
Proof.
  intros Hl Ht Hs.
  rewrite (calc_lig_end_valid _ _ Hl Ht).
  rewrite (calc_inner_vecs_and_rots_signs _ _ _ _ Hs). reflexivity.
Qed.

Lemma calc_lig_end_displacement (lig_type : string) (theta : R) (j k : Z) :
  In lig_type lig_types -> 0 <= theta <= 90 ->
  lig_type_to_signs lig_type = Ok (j, k) -> is_sign j ->
  exists rot_ac,
    calc_lig_end lig_type theta =
      Ok (mkVec3 1 0 0 +v
          mkVec3 (1 / 2) (IZR j * (sqrt 3 / 2) * cos (deg2rad theta))
            (sqrt 3 / 2 * sin (deg2rad theta)),
          rot_ac).
Proof.
  intros Hl Ht Hs Hj.
  rewrite (calc_lig_end_signs _ _ _ _ Hl Ht Hs), (x_bc_explicit _ _ Hj).
  eexists. reflexivity.
Qed.

Lemma calc_lig_end_norm (lig_type : string) (theta : R) :
  In lig_type lig_types -> 0 <= theta <= 90 ->
  exists x_ac rot_ac,
    calc_lig_end lig_type theta = Ok (x_ac, rot_ac) /\ norm x_ac = sqrt 3.
Proof.
  intros Hl Ht.
  destruct (lig_type_to_signs_valid _ Hl) as [j [k [Hs [Hj _]]]].
  destruct (calc_lig_end_displacement _ _ _ _ Hl Ht Hs Hj) as [rot_ac Heq].
  eexists. exists rot_ac. split; [exact Heq | exact (norm_x_ac _ _ Hj)].
Qed.

Lemma sample_thetas_valid (theta : R) : In theta [0; 45; 90] -> 0 <= theta <= 90.
Proof. simpl. intros [H | [H | [H | []]]]; subst; lra. Qed.

Lemma Rabs_self_minus (x tol : R) : 0 <= tol -> Rabs (x - x) <= tol.
Proof. intros H. rewrite Rminus_diag, Rabs_R0. exact H. Qed.

(** ** Magnitude of the displacement *)

(** C1, as stated, fails: for ligand type ["RR"] and theta = 0 the norm of
    the displacement returned by [calc_lig_end] is not 2 within 1e-9 (the two
    unit segments meet at a bend of 60 degrees, the norm is the square root
    of 3). *)
Lemma C1_norm_is_not_2 : ~ displacement_norm_is "RR" 0 2 1e-9.
Proof.
  intros [x_ac [rot_ac [Heq Hn]]].
  assert (Hl : In "RR" lig_types) by (simpl; auto).
  assert (Ht : 0 <= 0 <= 90) by lra.
  destruct (calc_lig_end_norm "RR" 0 Hl Ht) as [x [r [Heq' Hx]]].
  rewrite Heq in Heq'. injection Heq' as -> _.
  rewrite Hx in Hn.
  pose proof sqrt3_lt_2 as H3.
  rewrite Rabs_left in Hn; lra.
Qed.

(** C1, amended: for every ligand type in RR, RL, LR, LL and every theta in
    0, 45, 90 degrees, [calc_lig_end] returns and the Euclidean norm of the
    displacement is the square root of 3, exactly and hence within 1e-9. *)
Theorem C1_displacement_norm_sqrt3 (lig_type : string) (theta : R) :
  In lig_type lig_types -> In theta [0; 45; 90] ->
  exists x_ac rot_ac,
    calc_lig_end lig_type theta = Ok (x_ac, rot_ac) /\
    norm x_ac = sqrt 3 /\
    Rabs (norm x_ac - sqrt 3) <= 1e-9.
Proof.
  intros Hl Ht. apply sample_thetas_valid in Ht.
  destruct (calc_lig_end_norm _ _ Hl Ht) as [x_ac [rot_ac [Heq Hn]]].
  exists x_ac, rot_ac. repeat split; try assumption.
  rewrite Hn. apply Rabs_self_minus. lra.
Qed.

Lemma C1_displacement_norm_sqrt3_witness :
  exists x_ac rot_ac,
    calc_lig_end "LR" 45 = Ok (x_ac, rot_ac) /\
    norm x_ac = sqrt 3 /\
    Rabs (norm x_ac - sqrt 3) <= 1e-9.
Proof.
  apply (C1_displacement_norm_sqrt3 "LR" 45).
  - simpl. auto.
  - simpl. auto.
Defined.

(** ** Validation of the arguments *)

(** C3: [calc_lig_end] raises its [ValueError] if and only if the ligand type
    is not one of RR, RL, LR, LL or theta is outside [0, 90]; for each of the
    four ligand types theta = 0 and theta = 90 are accepted and
    theta = 90.0001 and theta = -0.0001 are rejected. *)
Theorem C3_calc_lig_end_raises_iff :
  (forall (lig_type : string) (theta : R),
     raises (calc_lig_end lig_type theta) <->
     (~ In lig_type lig_types \/ ~ 0 <= theta <= 90)) /\
  Forall (fun lig_type =>
            returns (calc_lig_end lig_type 0) /\
            returns (calc_lig_end lig_type 90) /\
            calc_lig_end lig_type 90.0001 =
              Raise (ValueError (InvalidTheta 90.0001)) /\
            calc_lig_end lig_type (-0.0001) =
              Raise (ValueError (InvalidTheta (-0.0001))))
         lig_types.
Proof.
  assert (Hret : forall lig_type theta,
             In lig_type lig_types -> 0 <= theta <= 90 ->
             returns (calc_lig_end lig_type theta)).
  { intros lig_type theta Hl Ht.
    destruct (calc_lig_end_norm _ _ Hl Ht) as [x [r [Heq _]]].
    exists (x, r). exact Heq. }
  split.
  - intros lig_type theta. split.
    + intros [e He].
      destruct (in_dec string_dec lig_type lig_types) as [Hl | Hl]; [| now left].
      right. intros Ht. destruct (Hret _ _ Hl Ht) as [a Ha]. congruence.
    + intros [Hl | Ht].
      * eexists. apply calc_lig_end_invalid_lig_type. exact Hl.
      * destruct (in_dec string_dec lig_type lig_types) as [Hl | Hl].
        -- eexists. apply calc_lig_end_invalid_theta; assumption.
        -- eexists. apply calc_lig_end_invalid_lig_type. exact Hl.
  - apply Forall_forall. intros lig_type Hl. repeat split.
    + apply Hret; [assumption | lra].
    + apply Hret; [assumption | lra].
    + apply calc_lig_end_invalid_theta; [assumption | lra].
    + apply calc_lig_end_invalid_theta; [assumption | lra].
Qed.

(** ** Signs of the rotation directions *)

(** C5: [lig_type_to_signs] returns, on each of the four ligand types, the
    pair RR -> (1, 1), RL -> (1, -1), LR -> (-1, 1), LL -> (-1, -1). *)
Theorem C5_lig_type_to_signs_table :
  lig_type_to_signs "RR" = Ok (1, 1)%Z /\
  lig_type_to_signs "RL" = Ok (1, -1)%Z /\
  lig_type_to_signs "LR" = Ok (-1, 1)%Z /\
  lig_type_to_signs "LL" = Ok (-1, -1)%Z /\
  Forall (fun lig_type => returns (lig_type_to_signs lig_type)) lig_types.
Proof.
  repeat split.
  repeat constructor; eexists; reflexivity.
Qed.

(** C10: once the validation of [calc_lig_end] has let the ligand type
    through, the raising branch of [lig_type_to_signs] is not taken: the call
    returns a sign pair, and so does the call of [calc_inner_vecs_and_rots]
    that contains it. *)
Theorem C10_signs_total_after_validation (lig_type : string) (theta : R) :
  negb (in_tuple lig_type lig_types) = false ->
  (exists j k, lig_type_to_signs lig_type = Ok (j, k)) /\
  returns (calc_inner_vecs_and_rots lig_type theta).
Proof.
  intros H. apply negb_false_iff, in_tuple_In in H.
  destruct (lig_type_to_signs_valid _ H) as [j [k [Hs _]]].
  split.
  - exists j, k. exact Hs.
  - eexists. apply (calc_inner_vecs_and_rots_signs _ _ _ _ Hs).
Qed.

Lemma C10_signs_total_after_validation_witness :
  (exists j k, lig_type_to_signs "LL" = Ok (j, k)) /\
  returns (calc_inner_vecs_and_rots "LL" 30).
Proof.
  apply (C10_signs_total_after_validation "LL" 30). reflexivity.
Defined.

(** ** Displacement and total rotation *)

(** C4: on valid arguments [calc_lig_end] returns the displacement
    [x_ab + x_bc], with [x_ab = (1, 0, 0)] and [x_bc] the image of
    [(1, 0, 0)] by [rot_ab1 * rot_b1b2], and the rotation
    [rot_ab1 * rot_b1b2 * rot_b2c1 * rot_c1c2], where [rot_ab1] turns about x
    by [j * theta], [rot_b1b2] about z by [j * 60], [rot_b2c1] about x by
    [k * theta], and [rot_c1c2] is the half turn about x for RR and LL and the
    identity otherwise. *)
Theorem C4_calc_lig_end_chain (lig_type : string) (theta : R) :
  In lig_type lig_types -> 0 <= theta <= 90 ->
  exists j k,
    lig_type_to_signs lig_type = Ok (j, k) /\
    let rot_ab1 := from_euler AxisX (IZR j * theta) in
    let rot_b1b2 := from_euler AxisZ (IZR j * 60) in
    let rot_b2c1 := from_euler AxisX (IZR k * theta) in
    let rot_c1c2 :=
      if (lig_type =? "RR") || (lig_type =? "LL")
      then from_euler AxisX 180 else identity in
    let x_ab := mkVec3 1 0 0 in
    let x_bc := apply (rot_ab1 *r rot_b1b2) (mkVec3 1 0 0) in
    calc_lig_end lig_type theta =
      Ok (x_ab +v x_bc, rot_ab1 *r rot_b1b2 *r rot_b2c1 *r rot_c1c2).
Proof.
  intros Hl Ht.
  destruct (lig_type_to_signs_valid _ Hl) as [j [k [Hs _]]].
  exists j, k. split; [exact Hs |]. cbv zeta.
  rewrite (calc_lig_end_signs _ _ _ _ Hl Ht Hs), mult_IZR, <- from_euler_x_0.
  unfold in_tuple. cbn [existsb]. rewrite orb_false_r. reflexivity.
Qed.

Lemma C4_calc_lig_end_chain_witness :
  exists j k,
    lig_type_to_signs "RR" = Ok (j, k) /\
    calc_lig_end "RR" 45 =
      Ok (mkVec3 1 0 0 +v
          apply (from_euler AxisX (IZR j * 45) *r from_euler AxisZ (IZR j * 60))
            (mkVec3 1 0 0),
          from_euler AxisX (IZR j * 45) *r from_euler AxisZ (IZR j * 60)
            *r from_euler AxisX (IZR k * 45) *r from_euler AxisX 180).
Proof.
  apply (C4_calc_lig_end_chain "RR" 45).
  - simpl. auto.
  - lra.
Defined.

(** C9: the displacement depends on the first sign only: for every theta in
    [0, 90], RR and RL give the same displacement, and so do LR and LL. *)
Theorem C9_displacement_first_sign_only (theta : R) :
  0 <= theta <= 90 ->
  (exists x_ac rot_rr rot_rl,
     calc_lig_end "RR" theta = Ok (x_ac, rot_rr) /\
     calc_lig_end "RL" theta = Ok (x_ac, rot_rl)) /\
  (exists x_ac rot_lr rot_ll,
     calc_lig_end "LR" theta = Ok (x_ac, rot_lr) /\
     calc_lig_end "LL" theta = Ok (x_ac, rot_ll)).
Proof.
  intros Ht. split.
  - rewrite (calc_lig_end_signs "RR" theta 1 1),
            (calc_lig_end_signs "RL" theta 1 (-1));
      try assumption; try reflexivity; try (simpl; auto; fail).
    do 3 eexists. split; reflexivity.
  - rewrite (calc_lig_end_signs "LR" theta (-1) 1),
            (calc_lig_end_signs "LL" theta (-1) (-1));
      try assumption; try reflexivity; try (simpl; auto; fail).
    do 3 eexists. split; reflexivity.
Qed.

Lemma C9_displacement_first_sign_only_witness :
  (exists x_ac rot_rr rot_rl,
     calc_lig_end "RR" 30 = Ok (x_ac, rot_rr) /\
     calc_lig_end "RL" 30 = Ok (x_ac, rot_rl)) /\
  (exists x_ac rot_lr rot_ll,
     calc_lig_end "LR" 30 = Ok (x_ac, rot_lr) /\
     calc_lig_end "LL" 30 = Ok (x_ac, rot_ll)).
Proof.
  apply (C9_displacement_first_sign_only 30). lra.
Defined.

Lemma compose_assoc (p q r : Rotation) : p *r q *r r = p *r (q *r r).
Proof.
  destruct p as [[? ? ?] [? ? ?] [? ? ?]], q as [[? ? ?] [? ? ?] [? ? ?]],
    r as [[? ? ?] [? ? ?] [? ? ?]].
  unfold compose, row_times, dot, col1, col2, col3.
  cbn [row1 row2 row3 vx vy vz].
  f_equal; f_equal; ring.
Qed.

Lemma half_turn_after_quarter_turn :
  from_euler AxisX 90 *r from_euler AxisX 180 =
  from_euler AxisX (Ropp 90) *r from_euler AxisX 0.
Proof.
  unfold from_euler, compose, row_times, dot, col1, col2, col3.
  cbn [row1 row2 row3 vx vy vz].
  rewrite cos_deg_opp, sin_deg_opp, cos_deg_90, sin_deg_90,
    cos_deg_180, sin_deg_180, cos_deg_0, sin_deg_0.
  f_equal; f_equal; ring.
Qed.

(** At theta = 90 the two rotations coincide as well: the half turn of RR
    after the quarter turn is the quarter turn of RL the other way. *)
Remark calc_lig_end_RR_RL_at_90 :
  calc_lig_end "RR" 90 = calc_lig_end "RL" 90.
Proof.
  assert (Ht : 0 <= 90 <= 90) by lra.
  rewrite (calc_lig_end_signs "RR" 90 1 1),
          (calc_lig_end_signs "RL" 90 1 (-1));
    try assumption; try reflexivity; try (simpl; auto; fail).
  do 2 f_equal.
  cbn [in_tuple existsb String.eqb Ascii.eqb Bool.eqb orb].
  rewrite !Rmult_1_l, neg1_mul.
  rewrite !(compose_assoc _ (from_euler AxisX _) (from_euler AxisX _)).
  rewrite half_turn_after_quarter_turn. reflexivity.
Qed.

(** ** Order of the composition *)

Lemma net_rotation_RL_90_entry (v : InnerVecsAndRots) :
  calc_inner_vecs_and_rots "RL" 90 = Ok v ->
  vx (row3 (net_rotation v)) = sqrt 3 / 2 /\
  vx (row3 (net_rotation_reversed v)) = - (sqrt 3 / 2).
Proof.
  rewrite (calc_inner_vecs_and_rots_signs "RL" 90 1 (-1) eq_refl).
  intros Hv. injection Hv as <-.
  unfold net_rotation, net_rotation_reversed.
  cbn [rot_ab1 rot_b1b2 rot_b2c1 rot_c1c2].
  rewrite !Rmult_1_l, neg1_mul.
  unfold compose, row_times, dot, col1, col2, col3.
  cbn [row1 row2 row3 vx vy vz].
  rewrite cos_deg_opp, sin_deg_opp, cos_deg_90, sin_deg_90,
    cos_deg_60, sin_deg_60, cos_deg_0, sin_deg_0.
  split; field.
Qed.

(** C6: there are a ligand type and a theta in (0, 90], namely RL and 90,
    for which the four sub-rotations composed in the reversed order
    [rot_c1c2 * rot_b2c1 * rot_b1b2 * rot_ab1] give a rotation different from
    the one [calc_lig_end] returns, [rot_ab1 * rot_b1b2 * rot_b2c1 * rot_c1c2]. *)
Theorem C6_composition_order_matters :
  exists (lig_type : string) (theta : R) (v : InnerVecsAndRots) (x_ac : Vec3),
    In lig_type lig_types /\ 0 < theta <= 90 /\
    calc_inner_vecs_and_rots lig_type theta = Ok v /\
    calc_lig_end lig_type theta = Ok (x_ac, net_rotation v) /\
    net_rotation_reversed v <> net_rotation v.
Proof.
  assert (Hl : In "RL" lig_types) by (simpl; auto).
  assert (Ht : 0 <= 90 <= 90) by lra.
  destruct (calc_inner_vecs_and_rots_returns "RL" 90 Hl) as [v Hv].
  exists "RL", 90, v. eexists.
  split; [exact Hl |]. split; [lra |]. split; [exact Hv |]. split.
  - rewrite (calc_lig_end_valid _ _ Hl Ht), Hv. reflexivity.
  - intros Heq.
    destruct (net_rotation_RL_90_entry v Hv) as [Hf Hr].
    rewrite Heq in Hr. rewrite Hf in Hr.
    pose proof sqrt3_pos. lra.
Qed.

(** ** The ring walker *)

Section RingWalkerProperties.

Variable bridge : R -> Rotation.

Lemma calc_lig_end_returns (lig_type : string) (theta : R) :
  In lig_type lig_types -> 0 <= theta <= 90 ->
  returns (calc_lig_end lig_type theta).
Proof.
  intros Hl Ht. destruct (calc_lig_end_norm _ _ Hl Ht) as [x [r [Heq _]]].
  exists (x, r). exact Heq.
Qed.

Lemma tokens_from_conf_id_of (conf : string) (toks : list string) :
  Forall (fun t => In t lig_types) toks ->
  tokens_from conf (conf_id_of toks) = Ok toks.
Proof.
  induction 1 as [| t ts Ht _ IH]; [reflexivity |].
  lig_type_cases Ht; cbn [conf_id_of fold_right String.append tokens_from];
    fold (conf_id_of ts); rewrite IH; reflexivity.
Qed.

Lemma walk_from_positions (toks : list string) (theta delta : R) :
  Forall (fun t => In t lig_types) toks -> 0 <= theta <= 90 ->
  forall (pos : Vec3) (ori : Rotation),
  exists ps,
    walk_from bridge pos ori toks theta delta = Ok ps /\
    length ps = length toks /\
    forall n,
      walk_from bridge pos ori (firstn n toks) theta delta = Ok (firstn n ps).
Proof.
  intros Hv Ht. induction Hv as [| t ts Hl _ IH]; intros pos ori.
  - exists []. repeat split. intros n. now rewrite !firstn_nil.
  - destruct (calc_lig_end_returns _ _ Hl Ht) as [[x_ac rot_ac] Heq].
    destruct (IH (pos +v apply ori x_ac) (ori *r rot_ac *r bridge delta))
      as [ps [Hps [Hlen Hpre]]].
    exists ((pos +v apply ori x_ac) :: ps). split; [| split].
    + cbn [walk_from]. rewrite Heq. cbn [bind]. rewrite Hps. reflexivity.
    + cbn [length]. now rewrite Hlen.
    + intros [| n]; [reflexivity |].
      cbn [firstn walk_from]. rewrite Heq. cbn [bind]. rewrite Hpre. reflexivity.
Qed.

End RingWalkerProperties.

(** C7: for a conformation of N valid ligand tokens and a valid theta, the
    ring walker returns exactly N metal positions, in the order of the
    tokens: the positions of the first n tokens are the first n positions. *)
Theorem C7_one_metal_per_token
  (bridge : R -> Rotation) (toks : list string) (theta delta : R) :
  Forall (fun t => In t lig_types) toks -> 0 <= theta <= 90 ->
  exists ps,
    calc_metal_positions bridge (conf_id_of toks) theta delta = Ok ps /\
    length ps = length toks /\
    forall n,
      calc_metal_positions bridge (conf_id_of (firstn n toks)) theta delta =
        Ok (firstn n ps).
Proof.
  intros Hv Ht.
  destruct (walk_from_positions bridge toks theta delta Hv Ht
              (mkVec3 0 0 0) identity) as [ps [Hps [Hlen Hpre]]].
  exists ps. unfold calc_metal_positions, tokens, walk. split; [| split].
  - rewrite (tokens_from_conf_id_of _ _ Hv). exact Hps.
  - exact Hlen.
  - intros n. rewrite tokens_from_conf_id_of.
    + apply Hpre.
    + rewrite <- (firstn_skipn n toks) in Hv.
      apply Forall_app in Hv. apply Hv.
Qed.

Lemma C7_one_metal_per_token_witness :
  exists ps,
    calc_metal_positions (from_euler AxisZ) "RRLL" 30 103 = Ok ps /\
    length ps = 2%nat /\
    forall n,
      calc_metal_positions (from_euler AxisZ)
        (conf_id_of (firstn n ["RR"; "LL"])) 30 103 = Ok (firstn n ps).
Proof.
  apply (C7_one_metal_per_token (from_euler AxisZ) ["RR"; "LL"] 30 103).
  - repeat (apply Forall_cons; [simpl; auto 7 |]). apply Forall_nil.
  - lra.
Defined.

(** ** The chain of syn-T-1 *)




(** * Further properties of the sources *)

(** ** Algebra of the rotation matrices *)

Ltac matrix_entries :=
  cbv beta iota zeta delta
    [proper mirror reflect_y transpose identity compose apply
     row_times dot det trace col1 col2 col3 row1 row2 row3 vx vy vz].

Ltac destruct_rotation r :=
  destruct r as [[? ? ?] [? ? ?] [? ? ?]].

Lemma compose_identity_l (r : Rotation) : identity *r r = r.
Proof. destruct_rotation r. matrix_entries. f_equal; f_equal; ring. Qed.

Lemma compose_identity_r (r : Rotation) : r *r identity = r.
Proof. destruct_rotation r. matrix_entries. f_equal; f_equal; ring. Qed.

Lemma apply_identity (v : Vec3) : apply identity v = v.
Proof. destruct v. matrix_entries. f_equal; ring. Qed.

Lemma apply_compose (p q : Rotation) (v : Vec3) :
  apply (p *r q) v = apply p (apply q v).
Proof.
  destruct_rotation p. destruct_rotation q. destruct v.
  matrix_entries. f_equal; ring.
Qed.

Lemma transpose_compose (p q : Rotation) :
  transpose (p *r q) = transpose q *r transpose p.
Proof.
  destruct_rotation p. destruct_rotation q.
  matrix_entries. f_equal; f_equal; ring.
Qed.

Lemma det_compose (p q : Rotation) : det (p *r q) = det p * det q.
Proof.
  destruct_rotation p. destruct_rotation q. matrix_entries. ring.
Qed.

Lemma dot_apply (r : Rotation) (u v : Vec3) :
  dot (apply r u) (apply r v) = dot u (apply (transpose r *r r) v).
Proof.
  destruct_rotation r. destruct u, v. matrix_entries. ring.
Qed.

Lemma proper_from_euler (axis : Axis) (angle : R) : proper (from_euler axis angle).
Proof.
  pose proof (cos2_sin2_deg angle) as H.
  unfold from_euler. destruct axis; matrix_entries;
    (split; [| split]); try (f_equal; f_equal; nra); nra.
Qed.

Lemma proper_compose (p q : Rotation) : proper p -> proper q -> proper (p *r q).
Proof.
  intros [Hp1 [Hp2 Hp3]] [Hq1 [Hq2 Hq3]]. unfold proper.
  rewrite transpose_compose, det_compose, Hp3, Hq3. split; [| split].
  - rewrite compose_assoc, <- (compose_assoc q), Hq1, compose_identity_l. exact Hp1.
  - rewrite compose_assoc, <- (compose_assoc (transpose p)), Hp2, compose_identity_l.
    exact Hq2.
  - ring.
Qed.

Lemma proper_preserves_dot (r : Rotation) (u v : Vec3) :
  proper r -> dot (apply r u) (apply r v) = dot u v.
Proof.
  intros [_ [H _]]. now rewrite dot_apply, H, apply_identity.
Qed.

Lemma proper_preserves_norm (r : Rotation) (v : Vec3) :
  proper r -> norm (apply r v) = norm v.
Proof.
  intros H. unfold norm. now rewrite proper_preserves_dot.
Qed.

(** ** Error behaviour of the three functions *)

Lemma lig_type_to_signs_invalid (lig_type : string) :
  ~ In lig_type lig_types ->
  lig_type_to_signs lig_type = Raise (ValueError (InvalidLigType lig_type)).
Proof.
  intros H. unfold lig_type_to_signs.
  destruct (String.eqb_spec lig_type "RR") as [-> | _];
    [exfalso; apply H; simpl; auto |].
  destruct (String.eqb_spec lig_type "RL") as [-> | _];
    [exfalso; apply H; simpl; auto |].
  destruct (String.eqb_spec lig_type "LR") as [-> | _];
    [exfalso; apply H; simpl; auto |].
  destruct (String.eqb_spec lig_type "LL") as [-> | _];
    [exfalso; apply H; simpl; auto 7 |].
  reflexivity.
Qed.

(** X1: [lig_type_to_signs] raises its [ValueError], carrying the offending
    string, exactly on the strings other than RR, RL, LR, LL; whenever it
    returns, both components are 1 or -1. *)
Theorem X1_lig_type_to_signs_raises_iff (lig_type : string) :
  (lig_type_to_signs lig_type = Raise (ValueError (InvalidLigType lig_type))
   <-> ~ In lig_type lig_types) /\
  (returns (lig_type_to_signs lig_type) <-> In lig_type lig_types) /\
  (forall j k, lig_type_to_signs lig_type = Ok (j, k) <->
     In lig_type lig_types /\ is_sign j /\ is_sign k /\
     (j = 1%Z <-> (lig_type = "RR" \/ lig_type = "RL")) /\
     (k = 1%Z <-> (lig_type = "RR" \/ lig_type = "LR"))).
Proof.
  destruct (in_dec string_dec lig_type lig_types) as [Hl | Hl].
  - destruct (lig_type_to_signs_valid _ Hl) as [j0 [k0 [Hs [Hj Hk]]]].
    split; [| split].
    + rewrite Hs. split; [discriminate | contradiction].
    + split; [auto | intros _; eexists; exact Hs].
    + intros j k. unfold is_sign.
      lig_type_cases Hl; cbn; split.
      all: try (intros H; injection H as <- <-; repeat split;
                simpl; auto 7; try discriminate;
                try (intros [H | H]; discriminate H)).
      all: intros [_ [[-> | ->] [[-> | ->] [[H1 H2] [H3 H4]]]]];
        try reflexivity; exfalso;
        try (specialize (H1 eq_refl); destruct H1; discriminate);
        try (specialize (H3 eq_refl); destruct H3; discriminate);
        try (assert (E : (-1)%Z = 1%Z) by (apply H2; auto); discriminate E);
        try (assert (E : (-1)%Z = 1%Z) by (apply H4; auto); discriminate E).
  - rewrite (lig_type_to_signs_invalid _ Hl). split; [| split].
    + split; auto.
    + split; [intros [a Ha]; discriminate | contradiction].
    + intros j k. split; [discriminate | intros [H _]; contradiction].
Qed.

(** X2: [calc_inner_vecs_and_rots] does not check theta: for every real
    theta, also outside [0, 90], it returns exactly when the ligand type is
    one of RR, RL, LR, LL, and otherwise raises the [ValueError] of
    [lig_type_to_signs]. *)
Theorem X2_calc_inner_vecs_and_rots_raises_iff (lig_type : string) (theta : R) :
  (returns (calc_inner_vecs_and_rots lig_type theta) <-> In lig_type lig_types) /\
  (calc_inner_vecs_and_rots lig_type theta =
     Raise (ValueError (InvalidLigType lig_type)) <-> ~ In lig_type lig_types).
Proof.
  destruct (in_dec string_dec lig_type lig_types) as [Hl | Hl].
  - destruct (calc_inner_vecs_and_rots_returns lig_type theta Hl) as [v Hv].
    rewrite Hv. split; split; try discriminate; try contradiction; auto.
    intros _. eexists. reflexivity.
  - unfold calc_inner_vecs_and_rots.
    rewrite (lig_type_to_signs_invalid _ Hl). cbn [bind].
    split; split; auto; try contradiction.
    intros [a Ha]. discriminate.
Qed.

(** X3: [calc_lig_end] checks the ligand type before theta.  It raises the
    error on the ligand type exactly when the type is invalid, whatever theta
    is, and the error on theta exactly when the type is valid and theta is
    outside [0, 90]. *)
Theorem X3_calc_lig_end_error_order (lig_type : string) (theta : R) :
  (calc_lig_end lig_type theta = Raise (ValueError (InvalidLigType lig_type))
   <-> ~ In lig_type lig_types) /\
  (calc_lig_end lig_type theta = Raise (ValueError (InvalidTheta theta))
   <-> In lig_type lig_types /\ ~ 0 <= theta <= 90).
Proof.
  destruct (in_dec string_dec lig_type lig_types) as [Hl | Hl].
  - destruct (Rle_dec 0 theta) as [H0 | H0];
      [destruct (Rle_dec theta 90) as [H90 | H90] |].
    + destruct (calc_lig_end_returns lig_type theta Hl (conj H0 H90)) as [a Ha].
      rewrite Ha. split; split; try discriminate; try contradiction.
      intros [_ H]. exfalso. apply H. split; assumption.
    + assert (Ht : ~ 0 <= theta <= 90) by (intros [_ H]; contradiction).
      rewrite (calc_lig_end_invalid_theta _ _ Hl Ht).
      split; split; try discriminate; try contradiction; auto.
    + assert (Ht : ~ 0 <= theta <= 90) by (intros [H _]; contradiction).
      rewrite (calc_lig_end_invalid_theta _ _ Hl Ht).
      split; split; try discriminate; try contradiction; auto.
  - rewrite (calc_lig_end_invalid_lig_type _ theta Hl).
    split; split; auto; try discriminate.
    intros [H _]. contradiction.
Qed.

(** ** Geometry of the ligand *)

Lemma sin_deg_nonneg (theta : R) : 0 <= theta <= 90 -> 0 <= sin (deg2rad theta).
Proof.
  intros [H0 H90]. pose proof PI_RGT_0 as Hpi.
  apply sin_ge_0; unfold deg2rad; nra.
Qed.

Lemma cos_deg_nonneg (theta : R) : 0 <= theta <= 90 -> 0 <= cos (deg2rad theta).
Proof.
  intros [H0 H90]. pose proof PI_RGT_0 as Hpi.
  apply cos_ge_0; unfold deg2rad; nra.
Qed.

Lemma sin_deg_pos (theta : R) : 0 < theta <= 90 -> 0 < sin (deg2rad theta).
Proof.
  intros [H0 H90]. pose proof PI_RGT_0 as Hpi.
  apply sin_gt_0; unfold deg2rad; nra.
Qed.

(** X4: closed form of the displacement.  On valid arguments the end point
    is [(3/2, j * (sqrt 3 / 2) * cos theta, (sqrt 3 / 2) * sin theta)], with
    [j] the first sign of the ligand type and theta read in degrees. *)
Theorem X4_displacement_closed_form (lig_type : string) (theta : R) :
  In lig_type lig_types -> 0 <= theta <= 90 ->
  exists j k rot_ac,
    lig_type_to_signs lig_type = Ok (j, k) /\
    calc_lig_end lig_type theta =
      Ok (mkVec3 (3 / 2)
            (IZR j * (sqrt 3 / 2) * cos (deg2rad theta))
            (sqrt 3 / 2 * sin (deg2rad theta)),
          rot_ac).
Proof.
  intros Hl Ht.
  destruct (lig_type_to_signs_valid _ Hl) as [j [k [Hs [Hj _]]]].
  destruct (calc_lig_end_displacement _ _ _ _ Hl Ht Hs Hj) as [rot_ac Heq].
  exists j, k, rot_ac. split; [exact Hs |]. rewrite Heq.
  unfold vadd. cbn [vx vy vz]. do 2 f_equal. f_equal; field.
Qed.

Lemma X4_displacement_closed_form_witness :
  exists j k rot_ac,
    lig_type_to_signs "LL" = Ok (j, k) /\
    calc_lig_end "LL" 30 =
      Ok (mkVec3 (3 / 2)
            (IZR j * (sqrt 3 / 2) * cos (deg2rad 30))
            (sqrt 3 / 2 * sin (deg2rad 30)),
          rot_ac).
Proof.
  apply (X4_displacement_closed_form "LL" 30).
  - simpl. auto 7.
  - lra.
Defined.

(** X5: the end point of a ligand lies in the plane x = 3/2, on the side
    z >= 0, and on the side of y given by the first letter of the ligand
    type: y >= 0 for RR and RL, y <= 0 for LR and LL. *)
Theorem X5_displacement_half_spaces (lig_type : string) (theta : R) :
  In lig_type lig_types -> 0 <= theta <= 90 ->
  exists x_ac rot_ac,
    calc_lig_end lig_type theta = Ok (x_ac, rot_ac) /\
    vx x_ac = 3 / 2 /\
    0 <= vz x_ac <= sqrt 3 / 2 /\
    (lig_type = "RR" \/ lig_type = "RL" -> 0 <= vy x_ac <= sqrt 3 / 2) /\
    (lig_type = "LR" \/ lig_type = "LL" -> - (sqrt 3 / 2) <= vy x_ac <= 0).
Proof.
  intros Hl Ht.
  pose proof (sin_deg_nonneg _ Ht) as Hs0.
  pose proof (cos_deg_nonneg _ Ht) as Hc0.
  pose proof (SIN_bound (deg2rad theta)) as [_ Hs1].
  pose proof (COS_bound (deg2rad theta)) as [_ Hc1].
  pose proof sqrt3_pos as H3.
  assert (Hcase : forall j k,
            lig_type_to_signs lig_type = Ok (j, k) -> is_sign j ->
            exists x_ac rot_ac,
              calc_lig_end lig_type theta = Ok (x_ac, rot_ac) /\
              vx x_ac = 3 / 2 /\
              vy x_ac = IZR j * (sqrt 3 / 2) * cos (deg2rad theta) /\
              vz x_ac = sqrt 3 / 2 * sin (deg2rad theta)).
  { intros j k Hs Hj.
    destruct (calc_lig_end_displacement _ _ _ _ Hl Ht Hs Hj) as [rot_ac Heq].
    eexists. exists rot_ac. split; [exact Heq |].
    unfold vadd. cbn [vx vy vz]. repeat split; field. }
  lig_type_cases Hl.
  - destruct (Hcase 1%Z 1%Z eq_refl (or_introl eq_refl))
      as [x [r [Heq [Hx [Hy Hz]]]]].
    exists x, r. rewrite Hx, Hy, Hz.
    split; [exact Heq |]. split; [reflexivity |]. split; [nra |].
    split; intros [E | E]; try discriminate E; nra.
  - destruct (Hcase 1%Z (-1)%Z eq_refl (or_introl eq_refl))
      as [x [r [Heq [Hx [Hy Hz]]]]].
    exists x, r. rewrite Hx, Hy, Hz.
    split; [exact Heq |]. split; [reflexivity |]. split; [nra |].
    split; intros [E | E]; try discriminate E; nra.
  - destruct (Hcase (-1)%Z 1%Z eq_refl (or_intror eq_refl))
      as [x [r [Heq [Hx [Hy Hz]]]]].
    exists x, r. rewrite Hx, Hy, Hz.
    split; [exact Heq |]. split; [reflexivity |]. split; [nra |].
    split; intros [E | E]; try discriminate E; nra.
  - destruct (Hcase (-1)%Z (-1)%Z eq_refl (or_intror eq_refl))
      as [x [r [Heq [Hx [Hy Hz]]]]].
    exists x, r. rewrite Hx, Hy, Hz.
    split; [exact Heq |]. split; [reflexivity |]. split; [nra |].
    split; intros [E | E]; try discriminate E; nra.
Qed.

Lemma X5_displacement_half_spaces_witness :
  exists x_ac rot_ac,
    calc_lig_end "LR" 60 = Ok (x_ac, rot_ac) /\
    vx x_ac = 3 / 2 /\
    0 <= vz x_ac <= sqrt 3 / 2 /\
    ("LR" = "RR" \/ "LR" = "RL" -> 0 <= vy x_ac <= sqrt 3 / 2) /\
    ("LR" = "LR" \/ "LR" = "LL" -> - (sqrt 3 / 2) <= vy x_ac <= 0).
Proof.
  apply (X5_displacement_half_spaces "LR" 60).
  - simpl. auto 7.
  - lra.
Defined.

(** X6: the two segments of a ligand have length 1 and meet at a bend of 60
    degrees (their scalar product is 1/2), for every ligand type and every
    theta, in or out of [0, 90]. *)
Theorem X6_unit_segments_and_bend (lig_type : string) (theta : R) :
  In lig_type lig_types ->
  exists v,
    calc_inner_vecs_and_rots lig_type theta = Ok v /\
    norm (x_ab_in_system_a v) = 1 /\
    norm (x_bc_in_system_a v) = 1 /\
    dot (x_ab_in_system_a v) (x_bc_in_system_a v) = 1 / 2.
Proof.
  intros Hl.
  destruct (lig_type_to_signs_valid _ Hl) as [j [k [Hs [Hj _]]]].
  rewrite (calc_inner_vecs_and_rots_signs _ theta _ _ Hs).
  eexists. split; [reflexivity |].
  cbn [x_ab_in_system_a x_bc_in_system_a].
  rewrite (x_bc_explicit _ _ Hj).
  pose proof (sign_square j Hj) as Hjj.
  pose proof (cos2_sin2_deg theta) as Hcs.
  pose proof sqrt3_sqrt3 as H3.
  unfold norm, dot. cbn [vx vy vz].
  set (c := cos (deg2rad theta)) in *. set (s := sin (deg2rad theta)) in *.
  set (q := sqrt 3) in *. set (r := IZR j) in *.
  split; [| split].
  - replace (1 * 1 + 0 * 0 + 0 * 0) with 1 by ring. apply sqrt_1.
  - replace (1 / 2 * (1 / 2) + r * (q / 2) * c * (r * (q / 2) * c) +
             q / 2 * s * (q / 2 * s))
      with (1 / 4 + (q * q) / 4 * ((r * r) * (c * c) + s * s)) by field.
    rewrite Hjj, H3, Rmult_1_l, Hcs.
    replace (1 / 4 + 3 / 4 * 1) with 1 by field. apply sqrt_1.
  - field.
Qed.

Lemma X6_unit_segments_and_bend_witness :
  exists v,
    calc_inner_vecs_and_rots "RL" 120 = Ok v /\
    norm (x_ab_in_system_a v) = 1 /\
    norm (x_bc_in_system_a v) = 1 /\
    dot (x_ab_in_system_a v) (x_bc_in_system_a v) = 1 / 2.
Proof.
  apply (X6_unit_segments_and_bend "RL" 120). simpl. auto 7.
Defined.

(** X7: the rotation returned by [calc_lig_end] is a proper rotation: its
    matrix is orthogonal with determinant 1, so applying it keeps scalar
    products and lengths. *)
Theorem X7_net_rotation_proper (lig_type : string) (theta : R) :
  In lig_type lig_types -> 0 <= theta <= 90 ->
  exists x_ac rot_ac,
    calc_lig_end lig_type theta = Ok (x_ac, rot_ac) /\
    proper rot_ac /\
    (forall u v, dot (apply rot_ac u) (apply rot_ac v) = dot u v) /\
    (forall u, norm (apply rot_ac u) = norm u).
Proof.
  intros Hl Ht.
  destruct (lig_type_to_signs_valid _ Hl) as [j [k [Hs _]]].
  rewrite (calc_lig_end_signs _ _ _ _ Hl Ht Hs).
  do 2 eexists. split; [reflexivity |].
  assert (Hp : proper
            (from_euler AxisX (IZR j * theta) *r from_euler AxisZ (IZR (j * 60))
             *r from_euler AxisX (IZR k * theta)
             *r (if in_tuple lig_type ["RR"; "LL"]
                 then from_euler AxisX 180 else from_euler AxisX 0))).
  { repeat apply proper_compose; try apply proper_from_euler.
    destruct (in_tuple lig_type ["RR"; "LL"]); apply proper_from_euler. }
  split; [exact Hp |]. split.
  - intros u v. apply proper_preserves_dot. exact Hp.
  - intros u. apply proper_preserves_norm. exact Hp.
Qed.

Lemma X7_net_rotation_proper_witness :
  exists x_ac rot_ac,
    calc_lig_end "RR" 90 = Ok (x_ac, rot_ac) /\
    proper rot_ac /\
    (forall u v, dot (apply rot_ac u) (apply rot_ac v) = dot u v) /\
    (forall u, norm (apply rot_ac u) = norm u).
Proof.
  apply (X7_net_rotation_proper "RR" 90).
  - simpl. auto.
  - lra.
Defined.

Ltac sign_angles :=
  rewrite ?mult_IZR, ?Rmult_1_l, ?neg1_mul;
  cbn [in_tuple existsb String.eqb Ascii.eqb Bool.eqb orb].

Ltac trig_entries :=
  unfold from_euler, vadd;
  rewrite ?cos_deg_opp, ?sin_deg_opp, ?cos_deg_180, ?sin_deg_180,
    ?cos_deg_0, ?sin_deg_0, ?cos_deg_60, ?sin_deg_60;
  matrix_entries.

(** X8: exchanging R and L in the ligand type mirrors the result in the
    plane y = 0: the displacement of LL (of LR) is the mirror image of the
    displacement of RR (of RL), and its rotation is the mirror image of the
    rotation. *)
Theorem X8_handedness_is_mirror_image (theta : R) :
  0 <= theta <= 90 ->
  (exists x_ac rot_ac,
     calc_lig_end "RR" theta = Ok (x_ac, rot_ac) /\
     calc_lig_end "LL" theta = Ok (apply reflect_y x_ac, mirror rot_ac)) /\
  (exists x_ac rot_ac,
     calc_lig_end "RL" theta = Ok (x_ac, rot_ac) /\
     calc_lig_end "LR" theta = Ok (apply reflect_y x_ac, mirror rot_ac)).
Proof.
  intros Ht. split.
  - rewrite (calc_lig_end_signs "RR" theta 1 1),
            (calc_lig_end_signs "LL" theta (-1) (-1));
      try assumption; try reflexivity; try (simpl; auto 7; fail).
    do 2 eexists. split; [reflexivity |]. sign_angles.
    do 2 f_equal.
    + trig_entries. f_equal; ring.
    + trig_entries. f_equal; f_equal; ring.
  - rewrite (calc_lig_end_signs "RL" theta 1 (-1)),
            (calc_lig_end_signs "LR" theta (-1) 1);
      try assumption; try reflexivity; try (simpl; auto 7; fail).
    do 2 eexists. split; [reflexivity |]. sign_angles.
    do 2 f_equal.
    + trig_entries. f_equal; ring.
    + trig_entries. f_equal; f_equal; ring.
Qed.

Lemma X8_handedness_is_mirror_image_witness :
  (exists x_ac rot_ac,
     calc_lig_end "RR" 45 = Ok (x_ac, rot_ac) /\
     calc_lig_end "LL" 45 = Ok (apply reflect_y x_ac, mirror rot_ac)) /\
  (exists x_ac rot_ac,
     calc_lig_end "RL" 45 = Ok (x_ac, rot_ac) /\
     calc_lig_end "LR" 45 = Ok (apply reflect_y x_ac, mirror rot_ac)).
Proof.
  apply (X8_handedness_is_mirror_image 45). lra.
Defined.

(** The dictionary of [calc_inner_vecs_and_rots], ligand type by ligand
    type, with the signs multiplied out. *)
Lemma calc_inner_vecs_and_rots_table (theta : R) :
  calc_inner_vecs_and_rots "RR" theta =
    Ok (mkInner (mkVec3 1 0 0)
          (apply (from_euler AxisX theta *r from_euler AxisZ 60) (mkVec3 1 0 0))
          (from_euler AxisX theta) (from_euler AxisZ 60)
          (from_euler AxisX theta) (from_euler AxisX 180)) /\
  calc_inner_vecs_and_rots "RL" theta =
    Ok (mkInner (mkVec3 1 0 0)
          (apply (from_euler AxisX theta *r from_euler AxisZ 60) (mkVec3 1 0 0))
          (from_euler AxisX theta) (from_euler AxisZ 60)
          (from_euler AxisX (Ropp theta)) (from_euler AxisX 0)) /\
  calc_inner_vecs_and_rots "LR" theta =
    Ok (mkInner (mkVec3 1 0 0)
          (apply (from_euler AxisX (Ropp theta) *r from_euler AxisZ (Ropp 60))
             (mkVec3 1 0 0))
          (from_euler AxisX (Ropp theta)) (from_euler AxisZ (Ropp 60))
          (from_euler AxisX theta) (from_euler AxisX 0)) /\
  calc_inner_vecs_and_rots "LL" theta =
    Ok (mkInner (mkVec3 1 0 0)
          (apply (from_euler AxisX (Ropp theta) *r from_euler AxisZ (Ropp 60))
             (mkVec3 1 0 0))
          (from_euler AxisX (Ropp theta)) (from_euler AxisZ (Ropp 60))
          (from_euler AxisX (Ropp theta)) (from_euler AxisX 180)).
Proof.
  rewrite (calc_inner_vecs_and_rots_signs "RR" theta 1 1 eq_refl),
          (calc_inner_vecs_and_rots_signs "RL" theta 1 (-1) eq_refl),
          (calc_inner_vecs_and_rots_signs "LR" theta (-1) 1 eq_refl),
          (calc_inner_vecs_and_rots_signs "LL" theta (-1) (-1) eq_refl).
  sign_angles. repeat split.
Qed.

(** First column of the net rotation, in both orders. *)
Lemma net_rotation_first_column (lig_type : string) (theta : R) :
  In lig_type lig_types ->
  exists v,
    calc_inner_vecs_and_rots lig_type theta = Ok v /\
    vx (row3 (net_rotation v)) = sqrt 3 / 2 * sin (deg2rad theta) /\
    vx (row3 (net_rotation_reversed v)) = - (sqrt 3 / 2 * sin (deg2rad theta)) /\
    (lig_type = "RR" \/ lig_type = "LL" ->
     vx (row2 (net_rotation_reversed v)) = - vx (row2 (net_rotation v)) /\
     (vx (row2 (net_rotation v)) = sqrt 3 / 2 * cos (deg2rad theta) \/
      vx (row2 (net_rotation v)) = - (sqrt 3 / 2 * cos (deg2rad theta)))) /\
    (lig_type = "RL" \/ lig_type = "LR" -> theta = 0 ->
     net_rotation_reversed v = net_rotation v).
Proof.
  intros Hl.
  destruct (calc_inner_vecs_and_rots_table theta) as [Hrr [Hrl [Hlr Hll]]].
  lig_type_cases Hl; eexists;
    (split; [eassumption |]);
    unfold net_rotation, net_rotation_reversed;
    cbn [rot_ab1 rot_b1b2 rot_b2c1 rot_c1c2].
  - split; [trig_entries; field |]. split; [trig_entries; field |].
    split.
    + intros _. split; [trig_entries; field | left; trig_entries; field].
    + intros [E | E]; discriminate E.
  - split; [trig_entries; field |]. split; [trig_entries; field |].
    split.
    + intros [E | E]; discriminate E.
    + intros _ ->. trig_entries. f_equal; f_equal; ring.
  - split; [trig_entries; field |]. split; [trig_entries; field |].
    split.
    + intros [E | E]; discriminate E.
    + intros _ ->. trig_entries. f_equal; f_equal; ring.
  - split; [trig_entries; field |]. split; [trig_entries; field |].
    split.
    + intros _. split; [trig_entries; field | right; trig_entries; field].
    + intros [E | E]; discriminate E.
Qed.

(** X9: when the order of the four sub-rotations matters.  On valid
    arguments the reversed composition [rot_c1c2 * rot_b2c1 * rot_b1b2 *
    rot_ab1] equals the composition of the source exactly when theta = 0 and
    the ligand type is RL or LR; for RR and LL, and for every theta in
    (0, 90], the two differ. *)
Theorem X9_composition_order_matters_iff (lig_type : string) (theta : R) :
  In lig_type lig_types -> 0 <= theta <= 90 ->
  exists v,
    calc_inner_vecs_and_rots lig_type theta = Ok v /\
    (net_rotation_reversed v = net_rotation v <->
     theta = 0 /\ (lig_type = "RL" \/ lig_type = "LR")).
Proof.
  intros Hl Ht.
  destruct (net_rotation_first_column lig_type theta Hl)
    as [v [Hv [Hf3 [Hr3 [Hsame Hopp]]]]].
  exists v. split; [exact Hv |].
  pose proof sqrt3_pos as H3. split.
  - intros Heq. rewrite Heq in Hr3, Hsame. rewrite Hf3 in Hr3.
    assert (Hs : sin (deg2rad theta) = 0) by nra.
    assert (H0 : theta = 0).
    { destruct (Req_dec theta 0) as [E | E]; [exact E | exfalso].
      assert (Hpos : 0 < theta <= 90) by lra.
      pose proof (sin_deg_pos _ Hpos). lra. }
    split; [exact H0 |]. subst theta.
    rewrite cos_deg_0 in Hsame.
    lig_type_cases Hl; auto; exfalso.
    + destruct Hsame as [Hneg Hval]; [auto |]. destruct Hval; lra.
    + destruct Hsame as [Hneg Hval]; [auto |]. destruct Hval; lra.
  - intros [H0 Hrl]. apply Hopp; assumption.
Qed.

Lemma X9_composition_order_matters_iff_witness :
  exists v,
    calc_inner_vecs_and_rots "RR" 0 = Ok v /\
    (net_rotation_reversed v = net_rotation v <->
     0 = 0 /\ ("RR" = "RL" \/ "RR" = "LR")).
Proof.
  apply (X9_composition_order_matters_iff "RR" 0).
  - simpl. auto.
  - lra.
Defined.

(** Multiples of [c * c + s * s = 1], for the linear solver. *)
Ltac circle_hints Hcs c s :=
  pose proof (f_equal (Rmult s) Hcs);
  pose proof (f_equal (Rmult c) Hcs);
  pose proof (f_equal (Rmult (sqrt 3)) Hcs);
  pose proof (f_equal (Rmult (sqrt 3 * s)) Hcs);
  pose proof (f_equal (Rmult (sqrt 3 * c)) Hcs).

(** X10: for the ligand types RL and LR the net rotation is a turn of 60
    degrees about the z axis tilted by theta: it fixes the vector
    [(0, - sin theta, cos theta)] for RL and [(0, sin theta, cos theta)] for
    LR, and its trace is [1 + 2 * cos 60 = 2]. *)
Theorem X10_opposite_handed_turn (theta : R) :
  0 <= theta <= 90 ->
  (exists x_ac rot_ac,
     calc_lig_end "RL" theta = Ok (x_ac, rot_ac) /\
     apply rot_ac (mkVec3 0 (- sin (deg2rad theta)) (cos (deg2rad theta))) =
       mkVec3 0 (- sin (deg2rad theta)) (cos (deg2rad theta)) /\
     trace rot_ac = 2) /\
  (exists x_ac rot_ac,
     calc_lig_end "LR" theta = Ok (x_ac, rot_ac) /\
     apply rot_ac (mkVec3 0 (sin (deg2rad theta)) (cos (deg2rad theta))) =
       mkVec3 0 (sin (deg2rad theta)) (cos (deg2rad theta)) /\
     trace rot_ac = 2).
Proof.
  intros Ht. pose proof (cos2_sin2_deg theta) as Hcs. split.
  - rewrite (calc_lig_end_signs "RL" theta 1 (-1));
      try assumption; try reflexivity; try (simpl; auto 7; fail).
    do 2 eexists. split; [reflexivity |]. sign_angles.
    split; trig_entries;
      set (c := cos (deg2rad theta)) in *; set (s := sin (deg2rad theta)) in *;
      clearbody c s; circle_hints Hcs c s.
    + f_equal; lra.
    + lra.
  - rewrite (calc_lig_end_signs "LR" theta (-1) 1);
      try assumption; try reflexivity; try (simpl; auto 7; fail).
    do 2 eexists. split; [reflexivity |]. sign_angles.
    split; trig_entries;
      set (c := cos (deg2rad theta)) in *; set (s := sin (deg2rad theta)) in *;
      clearbody c s; circle_hints Hcs c s.
    + f_equal; lra.
    + lra.
Qed.

Lemma X10_opposite_handed_turn_witness :
  (exists x_ac rot_ac,
     calc_lig_end "RL" 30 = Ok (x_ac, rot_ac) /\
     apply rot_ac (mkVec3 0 (- sin (deg2rad 30)) (cos (deg2rad 30))) =
       mkVec3 0 (- sin (deg2rad 30)) (cos (deg2rad 30)) /\
     trace rot_ac = 2) /\
  (exists x_ac rot_ac,
     calc_lig_end "LR" 30 = Ok (x_ac, rot_ac) /\
     apply rot_ac (mkVec3 0 (sin (deg2rad 30)) (cos (deg2rad 30))) =
       mkVec3 0 (sin (deg2rad 30)) (cos (deg2rad 30)) /\
     trace rot_ac = 2).
Proof.
  apply (X10_opposite_handed_turn 30). lra.
Defined.

Lemma cos_deg_pos (theta : R) : 0 <= theta < 90 -> 0 < cos (deg2rad theta).
Proof.
  intros [H0 H90]. pose proof PI_RGT_0 as Hpi.
  apply cos_gt_0; unfold deg2rad; nra.
Qed.

(** Two entries of the result that carry the two signs. *)
Lemma calc_lig_end_sign_entries (lig_type : string) (theta : R) :
  In lig_type lig_types -> 0 <= theta <= 90 ->
  exists j k x_ac rot_ac,
    lig_type_to_signs lig_type = Ok (j, k) /\
    calc_lig_end lig_type theta = Ok (x_ac, rot_ac) /\
    vy x_ac = IZR j * (sqrt 3 / 2 * cos (deg2rad theta)) /\
    vy (row1 rot_ac) = IZR k * (sqrt 3 / 2 * cos (deg2rad theta)).
Proof.
  intros Hl Ht.
  lig_type_cases Hl.
  - exists 1%Z, 1%Z.
    rewrite (calc_lig_end_signs "RR" theta 1 1);
      try assumption; try reflexivity; try (simpl; auto 7; fail).
    do 2 eexists. split; [reflexivity |]. split; [reflexivity |]. sign_angles.
    split; trig_entries; field.
  - exists 1%Z, (-1)%Z.
    rewrite (calc_lig_end_signs "RL" theta 1 (-1));
      try assumption; try reflexivity; try (simpl; auto 7; fail).
    do 2 eexists. split; [reflexivity |]. split; [reflexivity |]. sign_angles.
    split; trig_entries; field.
  - exists (-1)%Z, 1%Z.
    rewrite (calc_lig_end_signs "LR" theta (-1) 1);
      try assumption; try reflexivity; try (simpl; auto 7; fail).
    do 2 eexists. split; [reflexivity |]. split; [reflexivity |]. sign_angles.
    split; trig_entries; field.
  - exists (-1)%Z, (-1)%Z.
    rewrite (calc_lig_end_signs "LL" theta (-1) (-1));
      try assumption; try reflexivity; try (simpl; auto 7; fail).
    do 2 eexists. split; [reflexivity |]. split; [reflexivity |]. sign_angles.
    split; trig_entries; field.
Qed.

(** X11: below 90 degrees the ligand type can be read off the result of
    [calc_lig_end]: for theta in [0, 90), two valid ligand types give equal
    results (displacement and rotation) only if they are the same type. *)
Theorem X11_lig_type_read_off_below_90
  (lig_type1 lig_type2 : string) (theta : R) :
  In lig_type1 lig_types -> In lig_type2 lig_types -> 0 <= theta < 90 ->
  (calc_lig_end lig_type1 theta = calc_lig_end lig_type2 theta <->
   lig_type1 = lig_type2).
Proof.
  intros Hl1 Hl2 Hlt. split; [| intros ->; reflexivity].
  intros Heq.
  assert (Ht : 0 <= theta <= 90) by lra.
  assert (Hc : 0 < cos (deg2rad theta)) by (apply cos_deg_pos; exact Hlt).
  pose proof sqrt3_pos as H3.
  destruct (calc_lig_end_sign_entries _ _ Hl1 Ht)
    as [j1 [k1 [x1 [r1 [Hs1 [He1 [Hy1 Hr1]]]]]]].
  destruct (calc_lig_end_sign_entries _ _ Hl2 Ht)
    as [j2 [k2 [x2 [r2 [Hs2 [He2 [Hy2 Hr2]]]]]]].
  rewrite He1, He2 in Heq. injection Heq as -> ->.
  rewrite Hy2 in Hy1. rewrite Hr2 in Hr1.
  assert (Hqc : sqrt 3 / 2 * cos (deg2rad theta) <> 0).
  { apply Rgt_not_eq, Rmult_lt_0_compat; lra. }
  assert (Hj : IZR j2 = IZR j1).
  { apply (Rmult_eq_reg_r (sqrt 3 / 2 * cos (deg2rad theta))); [lra | exact Hqc]. }
  assert (Hk : IZR k2 = IZR k1).
  { apply (Rmult_eq_reg_r (sqrt 3 / 2 * cos (deg2rad theta))); [lra | exact Hqc]. }
  apply eq_IZR in Hj, Hk. subst j2 k2.
  lig_type_cases Hl1; lig_type_cases Hl2; cbn in Hs1, Hs2;
    try reflexivity; congruence.
Qed.

Lemma X11_lig_type_read_off_below_90_witness :
  calc_lig_end "RL" 30 = calc_lig_end "LR" 30 <-> "RL" = "LR".
Proof.
  apply (X11_lig_type_read_off_below_90 "RL" "LR" 30).
  - simpl. auto 7.
  - simpl. auto 7.
  - lra.
Defined.

(** ** Stripping the brackets of a conformation *)

Lemma strip_brackets_cons (a : ascii) (s : string) :
  strip_brackets (String a s) =
    if is_bracket a then strip_brackets s else String a (strip_brackets s).
Proof.
  unfold strip_brackets, is_bracket. cbn [remove_char].
  destruct (Ascii.eqb a "(") eqn:E1; cbn [orb].
  - reflexivity.
  - cbn [remove_char]. destruct (Ascii.eqb a ")"); reflexivity.
Qed.

Lemma strip_brackets_empty : strip_brackets "" = "".
Proof. reflexivity. Qed.

Lemma strip_brackets_app (s t : string) :
  strip_brackets (s ++ t) = strip_brackets s ++ strip_brackets t.
Proof.
  induction s as [| a s IH]; [reflexivity |].
  cbn [String.append]. rewrite !strip_brackets_cons.
  destruct (is_bracket a); [exact IH |]. cbn [String.append]. now rewrite IH.
Qed.

Lemma strip_brackets_bracket_free (s : string) :
  bracket_free s -> strip_brackets s = s.
Proof.
  unfold bracket_free. induction s as [| a s IH]; [reflexivity |].
  cbn [list_ascii_of_string]. intros H. inversion H as [| ? ? Ha Hs]; subst.
  rewrite strip_brackets_cons, Ha, (IH Hs). reflexivity.
Qed.

(** X12: stripping the brackets keeps exactly the characters that are not
    brackets, in their order; the result holds no bracket and stripping it
    again changes nothing. *)
Theorem X12_strip_brackets_filter (conf_id : string) :
  list_ascii_of_string (strip_brackets conf_id) =
    filter (fun c => negb (is_bracket c)) (list_ascii_of_string conf_id) /\
  bracket_free (strip_brackets conf_id) /\
  strip_brackets (strip_brackets conf_id) = strip_brackets conf_id.
Proof.
  assert (Hfilter : forall s,
            list_ascii_of_string (strip_brackets s) =
              filter (fun c => negb (is_bracket c)) (list_ascii_of_string s)).
  { induction s as [| a s IH]; [reflexivity |].
    rewrite strip_brackets_cons. cbn [list_ascii_of_string filter].
    destruct (is_bracket a); cbn [negb list_ascii_of_string]; now rewrite IH. }
  assert (Hfree : forall s, bracket_free (strip_brackets s)).
  { intros s. unfold bracket_free. rewrite Hfilter.
    apply Forall_forall. intros c Hc. apply filter_In in Hc.
    destruct Hc as [_ Hc]. now apply negb_true_iff in Hc. }
  split; [apply Hfilter |]. split; [apply Hfree |].
  apply strip_brackets_bracket_free, Hfree.
Qed.

(** X13: on a conformation written as ligand tokens each followed by a
    bracketed bridge token, stripping the brackets gives the tokens written
    one after the other: the bridge tokens stay in the string. *)
Theorem X13_strip_brackets_bracketed (units : list (string * string)) :
  Forall (fun u => bracket_free (fst u) /\ bracket_free (snd u)) units ->
  strip_brackets (bracketed units) = flattened units.
Proof.
  induction 1 as [| [lig con] units [Hl Hc] _ IH]; [reflexivity |].
  cbn [bracketed flattened fold_right fst snd] in *.
  fold (bracketed units). fold (flattened units).
  rewrite !strip_brackets_app, IH.
  rewrite (strip_brackets_bracket_free _ Hl), (strip_brackets_bracket_free _ Hc).
  reflexivity.
Qed.

Lemma X13_strip_brackets_bracketed_witness :
  strip_brackets (bracketed [("RL", "FF"); ("RL", "FF"); ("RL", "FF")]) =
    flattened [("RL", "FF"); ("RL", "FF"); ("RL", "FF")].
Proof.
  apply (X13_strip_brackets_bracketed [("RL", "FF"); ("RL", "FF"); ("RL", "FF")]).
  repeat (apply Forall_cons;
          [split; repeat (apply Forall_cons; [reflexivity |]); apply Forall_nil |]).
  apply Forall_nil.
Defined.

(** ** The drawing loops *)

Lemma combine_firstn_colors {A : Type} (l : list A) :
  combine l lig_colors = combine (firstn 5 l) lig_colors.
Proof.
  unfold lig_colors.
  destruct l as [| a1 [| a2 [| a3 [| a4 [| a5 l]]]]]; try reflexivity.
  cbn. destruct l; reflexivity.
Qed.

Lemma plot_ligands_nth
  (XYZ : Type) (transpose_to_xyz : list Vec3 -> XYZ) (colors : list string) :
  forall (frags_of_ligs : list (list (list Vec3))) (i : nat)
         (lig : list (list Vec3)) (color : string) (frag : list Vec3),
    nth_error frags_of_ligs i = Some lig ->
    nth_error colors i = Some color ->
    In frag lig ->
    In (plot (transpose_to_xyz frag) color)
       (flat_map (fun '(lig, color) =>
                    map (fun frag => plot (transpose_to_xyz frag) color) lig)
                 (combine frags_of_ligs colors)).
Proof.
  induction colors as [| c colors IH]; intros frags i lig color frag Hl Hc Hf.
  - destruct i; discriminate Hc.
  - destruct frags as [| lig0 frags]; [destruct i; discriminate Hl |].
    cbn [combine flat_map]. apply in_or_app. destruct i as [| i].
    + injection Hl as ->. injection Hc as ->. left.
      apply (in_map (fun frag => plot (transpose_to_xyz frag) color)). exact Hf.
    + right. apply (IH frags i lig color frag); assumption.
Qed.

Lemma plot_ligands_length
  (XYZ : Type) (transpose_to_xyz : list Vec3 -> XYZ) :
  forall (colors : list string) (frags_of_ligs : list (list (list Vec3))),
    (length frags_of_ligs <= length colors)%nat ->
    length (flat_map (fun '(lig, color) =>
                        map (fun frag => plot (transpose_to_xyz frag) color) lig)
                     (combine frags_of_ligs colors)) =
      list_sum (map (@length _) frags_of_ligs).
Proof.
  induction colors as [| c colors IH]; intros frags Hlen.
  - destruct frags; [reflexivity | cbn in Hlen; lia].
  - destruct frags as [| lig frags]; [reflexivity |].
    cbn [length] in Hlen. apply le_S_n in Hlen.
    cbn [combine flat_map map list_sum].
    rewrite length_app, length_map, (IH frags Hlen). reflexivity.
Qed.

(** X14: the loop over [zip(frags_of_ligs, lig_colors)] draws five ligands
    at most: every fragment of the ligand of rank i < 5 is plotted in the
    colour of rank i, the number of plots is the number of fragments of the
    first five ligands, and a sixth ligand or any later one is not plotted
    and changes nothing. *)
Theorem X14_plot_ligands_first_five
  (XYZ : Type) (transpose_to_xyz : list Vec3 -> XYZ)
  (frags_of_ligs : list (list (list Vec3))) :
  plot_ligands XYZ transpose_to_xyz frags_of_ligs =
    plot_ligands XYZ transpose_to_xyz (firstn 5 frags_of_ligs) /\
  length (plot_ligands XYZ transpose_to_xyz frags_of_ligs) =
    list_sum (map (@length _) (firstn 5 frags_of_ligs)) /\
  (forall i lig color frag,
     nth_error frags_of_ligs i = Some lig ->
     nth_error lig_colors i = Some color ->
     In frag lig ->
     In (plot (transpose_to_xyz frag) color)
        (plot_ligands XYZ transpose_to_xyz frags_of_ligs)).
Proof.
  assert (Htrunc : plot_ligands XYZ transpose_to_xyz frags_of_ligs =
                   plot_ligands XYZ transpose_to_xyz (firstn 5 frags_of_ligs)).
  { unfold plot_ligands. now rewrite (combine_firstn_colors frags_of_ligs). }
  split; [exact Htrunc |]. split.
  - rewrite Htrunc. unfold plot_ligands. apply plot_ligands_length.
    cbn [lig_colors length]. apply firstn_le_length.
  - intros i lig color frag Hl Hc Hf. unfold plot_ligands.
    apply (plot_ligands_nth XYZ transpose_to_xyz lig_colors _ i lig); assumption.
Qed.

(** ** The sweep over theta *)

Lemma THETAS_seq : THETAS = map Z.of_nat (seq 0 91).
Proof. reflexivity. Qed.

Lemma In_THETAS (z : Z) : In z THETAS <-> (0 <= z <= 90)%Z.
Proof.
  rewrite THETAS_seq, in_map_iff. split.
  - intros [n [<- Hn]]. apply in_seq in Hn. lia.
  - intros Hz. exists (Z.to_nat z). split; [lia |]. apply in_seq. lia.
Qed.

Lemma comprehension_spec {A B : Type} (f : A -> result B) (l : list A) :
  match comprehension f l with
  | Ok ys => Forall2 (fun x y => f x = Ok y) l ys
  | Raise e =>
      exists l1 x l2,
        l = (l1 ++ x :: l2)%list /\ f x = Raise e /\
        Forall (fun x' => returns (f x')) l1
  end.
Proof.
  induction l as [| x l IH]; cbn [comprehension]; [constructor |].
  destruct (f x) as [y | e] eqn:Hx; cbn [bind].
  - destruct (comprehension f l) as [ys | e]; cbn [bind].
    + constructor; assumption.
    + destruct IH as [l1 [x' [l2 [-> [Hx' Hl1]]]]].
      exists (x :: l1), x', l2. repeat split; [exact Hx' |].
      constructor; [eexists; exact Hx | exact Hl1].
  - exists [], x, l. repeat split; [exact Hx | constructor].
Qed.

Lemma firstn_seq_le (k n a : nat) :
  (k <= n)%nat -> firstn k (seq a n) = seq a k.
Proof.
  revert n a. induction k as [| k IH]; intros n a Hk; [reflexivity |].
  destruct n as [| n]; [lia |].
  cbn [seq firstn]. f_equal. apply IH. lia.
Qed.

Lemma seq_split_nth (l1 l2 : list Z) (x : Z) (n : nat) :
  map Z.of_nat (seq 0 n) = (l1 ++ x :: l2)%list ->
  x = Z.of_nat (length l1) /\ l1 = map Z.of_nat (seq 0 (length l1)).
Proof.
  intros H.
  assert (Hlen : (length l1 < n)%nat).
  { apply (f_equal (@length Z)) in H.
    rewrite length_map, length_seq, length_app in H. cbn [length] in H. lia. }
  split.
  - assert (Hn : nth (length l1) (map Z.of_nat (seq 0 n)) 0%Z = x)
      by (rewrite H, nth_middle; reflexivity).
    rewrite <- Hn.
    change 0%Z with (Z.of_nat 0). rewrite map_nth, seq_nth; [reflexivity | lia].
  - apply (f_equal (firstn (length l1))) in H.
    rewrite firstn_app, firstn_all, Nat.sub_diag, firstn_0, app_nil_r in H.
    rewrite firstn_map, firstn_seq_le in H by lia. symmetry. exact H.
Qed.

(** X15: the data frame of the sweep.  If [calc_rsu] returns for the 91
    values of theta, the column ["theta"] is 0, 1, ..., 90 and the column
    ["rsu"] holds, row by row, the value of [calc_rsu] at that theta with
    the ring ["RRFFLLBBRRFFLLBB"] and delta = 103.  Otherwise no frame is
    built: the script stops with the error raised at the smallest theta at
    which [calc_rsu] raises. *)
Theorem X15_df_rows (calc_rsu : string -> Z -> Z -> result R) :
  match df calc_rsu with
  | Ok (theta, rsu) =>
      theta = map Z.of_nat (seq 0 91) /\
      length rsu = 91%nat /\
      Forall2 (fun t r => calc_rsu "RRFFLLBBRRFFLLBB" t 103%Z = Ok r) theta rsu
  | Raise e =>
      exists t,
        (0 <= t <= 90)%Z /\
        calc_rsu "RRFFLLBBRRFFLLBB" t 103%Z = Raise e /\
        forall t', (0 <= t' < t)%Z ->
                   returns (calc_rsu "RRFFLLBBRRFFLLBB" t' 103%Z)
  end.
Proof.
  unfold df.
  pose proof (comprehension_spec
                (fun theta => calc_rsu CONF_ID_OF_RING theta DELTA_) THETAS) as H.
  destruct (comprehension _ THETAS) as [rsu | e]; cbn [bind].
  - split; [reflexivity |]. split.
    + apply Forall2_length in H. rewrite <- H. reflexivity.
    + exact H.
  - destruct H as [l1 [t [l2 [Hsplit [Ht Hl1]]]]].
    exists t. split; [| split].
    + apply In_THETAS. rewrite Hsplit. apply in_or_app. right. now left.
    + exact Ht.
    + intros t' Ht'. rewrite THETAS_seq in Hsplit.
      destruct (seq_split_nth _ _ _ _ Hsplit) as [Hx Hl].
      rewrite Forall_forall in Hl1. apply Hl1.
      rewrite Hl. apply in_map_iff. exists (Z.to_nat t'). split; [lia |].
      apply in_seq. lia.
Qed.

(** X16: the sweep visits exactly the integer values of theta that
    [calc_lig_end] accepts: for a valid ligand type and an int [t],
    [calc_lig_end] returns at [t] if and only if [t] is one of [THETAS]; there
    are 91 of them. *)
Theorem X16_THETAS_are_the_valid_ints (lig_type : string) (t : Z) :
  In lig_type lig_types ->
  (returns (calc_lig_end lig_type (IZR t)) <-> In t THETAS) /\
  length THETAS = 91%nat.
Proof.
  intros Hl. split; [| reflexivity]. rewrite In_THETAS. split.
  - intros [a Ha].
    destruct (Rle_dec 0 (IZR t)) as [H0 | H0];
      [destruct (Rle_dec (IZR t) 90) as [H90 | H90] |].
    + split; apply le_IZR; assumption.
    + rewrite calc_lig_end_invalid_theta in Ha; [discriminate | exact Hl | lra].
    + rewrite calc_lig_end_invalid_theta in Ha; [discriminate | exact Hl | lra].
  - intros [H0 H90]. apply calc_lig_end_returns; [exact Hl |].
    split; apply IZR_le; assumption.
Qed.

Lemma X16_THETAS_are_the_valid_ints_witness :
  (returns (calc_lig_end "RR" (IZR 90)) <-> In 90%Z THETAS) /\
  length THETAS = 91%nat.
Proof.
  apply (X16_THETAS_are_the_valid_ints "RR" 90). simpl. auto.
Defined.

(** ** The labels of the metals *)

Lemma scatter_metals_from (XYZ : Type) (metal_positions : list Vec3) :
  forall (k i : nat) (metal_pos : Vec3),
    nth_error metal_positions i = Some metal_pos ->
    let calls :=
      flat_map (fun '(i, metal_pos) =>
                  [@scatter XYZ metal_pos "orange" "o";
                   text metal_pos (format_int (i + 1)) "orange"])
               (enumerate_from k metal_positions) in
    nth_error calls (2 * i) = Some (scatter metal_pos "orange" "o") /\
    nth_error calls (2 * i + 1) =
      Some (text metal_pos (format_int (k + i + 1)) "orange").
Proof.
  induction metal_positions as [| p ps IH]; intros k i metal_pos Hi.
  - destruct i; discriminate Hi.
  - destruct i as [| i].
    + injection Hi as ->. cbn. rewrite Nat.add_0_r. split; reflexivity.
    + cbn [nth_error] in Hi. destruct (IH (S k) i metal_pos Hi) as [H1 H2].
      cbn zeta in H1, H2. cbn [enumerate_from flat_map app].
      replace (2 * S i)%nat with (S (S (2 * i))) by lia.
      replace (S (S (2 * i)) + 1)%nat with (S (S (2 * i + 1))) by lia.
      cbn [nth_error]. rewrite H1, H2.
      replace (S k + i + 1)%nat with (k + S i + 1)%nat by lia.
      split; reflexivity.
Qed.

(** X17: the loop over [enumerate(metal_positions)] marks the metals in the
    order of the list and numbers them from 1: the metal of rank i (from 0)
    gets a scatter call at its position, followed by a text call with the
    decimal numeral of i + 1; there are two calls per metal. *)
Theorem X17_metal_labels_from_one
  (XYZ : Type) (metal_positions : list Vec3) :
  length (scatter_metals XYZ metal_positions) =
    (2 * length metal_positions)%nat /\
  (forall i metal_pos,
     nth_error metal_positions i = Some metal_pos ->
     nth_error (scatter_metals XYZ metal_positions) (2 * i) =
       Some (scatter metal_pos "orange" "o") /\
     nth_error (scatter_metals XYZ metal_positions) (2 * i + 1) =
       Some (text metal_pos (format_int (i + 1)) "orange")).
Proof.
  split.
  - unfold scatter_metals.
    assert (H : forall k,
              length (flat_map
                        (fun '(i, metal_pos) =>
                           [@scatter XYZ metal_pos "orange" "o";
                            text metal_pos (format_int (i + 1)) "orange"])
                        (enumerate_from k metal_positions)) =
                (2 * length metal_positions)%nat).
    { induction metal_positions as [| p ps IH]; intros k; [reflexivity |].
      cbn [enumerate_from flat_map app length]. rewrite IH. lia. }
    apply H.
  - intros i metal_pos Hi.
    apply (scatter_metals_from XYZ metal_positions 0 i metal_pos Hi).
Qed.
